(** * AgriScan Plant Doctor: the decision core of [app.py]

    A shallow embedding of the mock detector [detect_disease], the
    treatment lookup [get_treatments], the three sample buttons and the
    bar chart of the results column, followed by the properties the
    specification states about them.

    Numbers.  Python's [float] is IEEE binary64.  A finite float is
    carried as the rational it denotes ([Fin q]), next to the non-finite
    values [PInf], [NInf] and [NaN]; every addition and division rounds
    its exact result to the nearest binary64 number, ties to even
    ([round64]), as the machine does.  [Module Binary64] runs the same
    lines on the machine's own floats, against which the rounding written
    out here is compared.  Strings are byte strings; every literal of the
    program is ASCII, so [len] and slicing agree with Python's. *)

From Stdlib Require Import List String Ascii Bool Arith Lia.
From Stdlib Require Import ZArith QArith Qround Qpower Qabs Lqa.
From Stdlib Require Import Permutation Sorted.
From Stdlib Require Floats.PrimFloat Floats.FloatOps Floats.SpecFloat Uint63.
Import ListNotations.

Local Open Scope string_scope.
Local Open Scope list_scope.

(** ** Python strings *)

Module Py.

(** [s.startswith(p)] *)
Fixpoint startswith (p s : string) : bool :=
  match p, s with
  | EmptyString, _ => true
  | String a p', String b s' => Ascii.eqb a b && startswith p' s'
  | String _ _, EmptyString => false
  end.

(** [p in s] for strings: [p] occurs in [s] as a contiguous substring. *)
Fixpoint str_in (p s : string) : bool :=
  startswith p s ||
  match s with
  | EmptyString => false
  | String _ s' => str_in p s'
  end.

(** [s[:n]] for [n >= 0]. *)
Fixpoint take (n : nat) (s : string) : string :=
  match n, s with
  | S n', String c s' => String c (take n' s')
  | _, _ => EmptyString
  end.

(** [s[n:]] for [n >= 0]. *)
Fixpoint drop (n : nat) (s : string) : string :=
  match n, s with
  | S n', String _ s' => drop n' s'
  | _, _ => s
  end.

(** [s.replace(old, new)] for a non-empty [old]: occurrences are found
    left to right and do not overlap.  [skip] counts the characters of the
    occurrence just replaced that are still to be passed over. *)
Fixpoint replace_from (old new : string) (skip : nat) (s : string) : string :=
  match s with
  | EmptyString => EmptyString
  | String c s' =>
      match skip with
      | S k => replace_from old new k s'
      | O =>
          if startswith old s
          then new ++ replace_from old new (String.length old - 1) s'
          else String c (replace_from old new 0 s')
      end
  end.

Definition replace (old new s : string) : string := replace_from old new 0 s.

End Py.

(** ** Floats

    [Fin q] is the finite float whose value is the rational [q].  The
    literals of the program are given by the decimals they are written
    as; a computed float is a binary64 number, each operation rounding its
    exact result.  The sign of a zero is not kept: the program only
    divides by a sum of numbers that are not negative, and such a sum is
    never the negative zero. *)

Inductive f64 : Type :=
| Fin (q : Q)
| PInf
| NInf
| NaN.

(** [floor (log2 q)] for [q > 0]. *)
Definition ilog2 (q : Q) : Z :=
  let d := (Z.log2 (Qnum q) - Z.log2 (Zpos (Qden q)))%Z in
  if Qle_bool (2 ^ d) q then d else (d - 1)%Z.

(** The exponent of the last bit of the binary64 numbers around [q > 0]:
    53 bits of precision, and no exponent below that of the subnormals. *)
Definition ulp_exponent (q : Q) : Z := Z.max (ilog2 q - 52) (-1074).

(** Rounding to the nearest integer, ties to even. *)
Definition round_half_even (r : Q) : Z :=
  let f := Qfloor r in
  match (r - inject_Z f ?= 1 # 2)%Q with
  | Lt => f
  | Gt => (f + 1)%Z
  | Eq => if Z.even f then f else (f + 1)%Z
  end.

Definition round_positive (q : Q) : f64 :=
  let e := ulp_exponent q in
  let v := (inject_Z (round_half_even (q / 2 ^ e)) * 2 ^ e)%Q in
  if Qle_bool (2 ^ 1024) v then PInf else Fin v.

Definition f64_opp (a : f64) : f64 :=
  match a with
  | Fin q => Fin (- q)
  | PInf => NInf
  | NInf => PInf
  | NaN => NaN
  end.

(** The binary64 number nearest to [q], ties to even; infinite beyond the
    largest one. *)
Definition round64 (q : Q) : f64 :=
  match (q ?= 0)%Q with
  | Eq => Fin 0
  | Gt => round_positive q
  | Lt => f64_opp (round_positive (- q))
  end.

(** [a + b] *)
Definition f64_add (a b : f64) : f64 :=
  match a, b with
  | NaN, _ | _, NaN => NaN
  | PInf, NInf | NInf, PInf => NaN
  | PInf, _ | _, PInf => PInf
  | NInf, _ | _, NInf => NInf
  | Fin x, Fin y => round64 (x + y)
  end.

(** [a / b], with numpy's results for a zero divisor (a warning, not an
    exception). *)
Definition f64_div (a b : f64) : f64 :=
  match a, b with
  | NaN, _ | _, NaN => NaN
  | PInf, PInf | PInf, NInf | NInf, PInf | NInf, NInf => NaN
  | PInf, Fin y => if Qle_bool 0 y then PInf else NInf
  | NInf, Fin y => if Qle_bool 0 y then NInf else PInf
  | Fin _, PInf | Fin _, NInf => Fin 0
  | Fin x, Fin y =>
      if Qeq_bool y 0 then
        match (x ?= 0)%Q with
        | Eq => NaN
        | Gt => PInf
        | Lt => NInf
        end
      else round64 (x / y)
  end.

(** The order numpy sorts by: the usual one on numbers, [nan] last. *)
Definition sort_leb (a b : f64) : bool :=
  match a, b with
  | _, NaN => true
  | NaN, _ => false
  | NInf, _ => true
  | _, NInf => false
  | _, PInf => true
  | PInf, _ => false
  | Fin x, Fin y => Qle_bool x y
  end.

Definition sort_le (a b : f64) : Prop := sort_leb a b = true.

(** IEEE comparisons [a < b] and [a == b]: false as soon as a [nan] is
    involved. *)
Definition f64_ltb (a b : f64) : bool :=
  match a, b with
  | NaN, _ | _, NaN => false
  | _, _ => negb (sort_leb b a)
  end.

Definition f64_eqb (a b : f64) : bool :=
  match a, b with
  | NaN, _ | _, NaN => false
  | _, _ => sort_leb a b && sort_leb b a
  end.

(** [0 <= a <= 1] *)
Definition in_unit (a : f64) : Prop :=
  match a with
  | Fin q => (0 <= q <= 1)%Q
  | _ => False
  end.

(** ** The label catalog and the prediction records *)

Definition CLASS_NAMES : list string := [
  "Tomato Bacterial Spot";
  "Tomato Early Blight";
  "Tomato Late Blight";
  "Tomato Leaf Mold";
  "Tomato Septoria Leaf Spot";
  "Tomato Spider Mites";
  "Tomato Target Spot";
  "Tomato Yellow Leaf Curl Virus";
  "Tomato Mosaic Virus";
  "Healthy Tomato"
].

Definition SAMPLE_IMAGES : list (string * string) := [
  ("Early Blight", "https://github.com/ravirajsinh45/plant_disease_dataset/raw/master/tomato/Tomato_Early_blight.JPG");
  ("Late Blight", "https://github.com/ravirajsinh45/plant_disease_dataset/raw/master/tomato/Tomato_Late_blight.JPG");
  ("Healthy", "https://github.com/ravirajsinh45/plant_disease_dataset/raw/master/tomato/Healthy.JPG")
].

(** The dict [{"disease": ..., "confidence": ...}]. *)
Record Prediction : Type := mkPrediction {
  disease : string;
  confidence : f64
}.

(** ** Treatment recommendations *)

Definition healthy_advice : list string := [
  "Continue regular monitoring";
  "Apply balanced NPK fertilizer";
  "Maintain proper watering schedule";
  "Ensure adequate sunlight exposure"
].

Definition early_blight_advice : list string := [
  "Remove infected leaves immediately";
  "Apply copper-based fungicide weekly";
  "Improve air circulation around plants";
  "Rotate crops next season"
].

Definition late_blight_advice : list string := [
  "Apply chlorothalonil (0.05%) immediately";
  "Destroy severely infected plants";
  "Avoid overhead watering";
  "Plant resistant varieties next season"
].

Definition septoria_advice : list string := [
  "Apply mancozeb fungicide (2g/L water)";
  "Remove and destroy infected leaves";
  "Stake plants for better airflow";
  "Mulch to prevent soil splash"
].

Definition default_advice : list string := [
  "Apply neem oil spray every 7 days";
  "Remove affected plant parts";
  "Introduce beneficial insects";
  "Apply sulfur-based fungicide"
].

Definition get_treatments (disease_name : string) : list string :=
  if Py.str_in "Healthy" disease_name then healthy_advice
  else if Py.str_in "Early Blight" disease_name then early_blight_advice
  else if Py.str_in "Late Blight" disease_name then late_blight_advice
  else if Py.str_in "Septoria" disease_name then septoria_advice
  else default_advice.

(** The specification's reading of the table: an ordered list of
    (pattern, advice) rules, the first matching rule wins, and a default
    advice list when no rule matches. *)
Definition treatment_rules : list (string * list string) := [
  ("Healthy", healthy_advice);
  ("Early Blight", early_blight_advice);
  ("Late Blight", late_blight_advice);
  ("Septoria", septoria_advice)
].

Definition first_match (rules : list (string * list string))
    (default : list string) (name : string) : list string :=
  match find (fun rule => Py.str_in (fst rule) name) rules with
  | Some rule => snd rule
  | None => default
  end.

Definition treatments_by_rules (name : string) : list string :=
  first_match treatment_rules default_advice name.

(** ** Session state and the sample buttons of [main] *)

Record SessionState : Type := mkSession {
  camera_active : bool;
  processing : bool;
  results : option (list Prediction)
}.

(** The three buttons of the "Use Sample" branch, in column order. *)
Inductive SampleButton : Type :=
| TestEarlyBlight
| TestLateBlight
| TestHealthyLeaf.

(** What each button stores in [st.session_state.results]. *)
Definition sample_results (b : SampleButton) : list Prediction :=
  match b with
  | TestEarlyBlight =>
      [ {| disease := "Tomato Early Blight"; confidence := Fin 0.92 |};
        {| disease := "Tomato Septoria Leaf Spot"; confidence := Fin 0.06 |};
        {| disease := "Tomato Late Blight"; confidence := Fin 0.02 |} ]
  | TestLateBlight =>
      [ {| disease := "Tomato Late Blight"; confidence := Fin 0.88 |};
        {| disease := "Tomato Early Blight"; confidence := Fin 0.08 |};
        {| disease := "Tomato Leaf Mold"; confidence := Fin 0.04 |} ]
  | TestHealthyLeaf =>
      [ {| disease := "Healthy Tomato"; confidence := Fin 0.95 |};
        {| disease := "Tomato Bacterial Spot"; confidence := Fin 0.03 |};
        {| disease := "Tomato Yellow Leaf Curl Virus"; confidence := Fin 0.02 |} ]
  end.

Definition click_sample (b : SampleButton) (ss : SessionState) : SessionState :=
  {| camera_active := camera_active ss;
     processing := processing ss;
     results := Some (sample_results b) |}.

(** [cols[i]] shows the [i]-th entry of [SAMPLE_IMAGES] under its name and,
    in the second row, the [i]-th button. *)
Definition sample_columns : list SampleButton :=
  [TestEarlyBlight; TestLateBlight; TestHealthyLeaf].

Fixpoint key_index (name : string) (keys : list string) : option nat :=
  match keys with
  | [] => None
  | k :: keys' =>
      if String.eqb name k then Some 0%nat
      else option_map S (key_index name keys')
  end.

(** The specification's entry point for presets, named by the sample's
    name: the results stored by the button of that sample's column. *)
Definition scan_from_preset (name : string) : option (list Prediction) :=
  match key_index name (map fst SAMPLE_IMAGES) with
  | Some i => option_map sample_results (nth_error sample_columns i)
  | None => None
  end.

(** ** The results column: treatments and the bar chart *)

(** One element of the comprehension that builds [short_names]. *)
Definition short_name (name : string) : string :=
  Py.take 20 (Py.replace "Tomato " "" name)
  ++ (if (20 <? String.length name)%nat then "..." else "").

Definition short_names (diseases : list string) : list string :=
  map short_name diseases.

(** The specification's shortening rule, in its words: strip the crop-name
    prefix; if what remains exceeds 20 characters, truncate it to 20 and
    append the ellipsis. *)
Definition strip_prefix (prefix s : string) : string :=
  if Py.startswith prefix s then Py.drop (String.length prefix) s else s.

Definition short_label_by_rule (name : string) : string :=
  let rest := strip_prefix "Tomato " name in
  if (20 <? String.length rest)%nat then Py.take 20 rest ++ "..." else rest.

(** The calls made on [ax]: [barh], [set_xlim], [set_xlabel], [set_title],
    [invert_yaxis]. *)
Record BarChart : Type := mkChart {
  bar_names : list string;
  bar_widths : list f64;
  bar_colors : list string;
  xlim : Q * Q;
  xlabel : string;
  title : string;
  yaxis_inverted : bool
}.

Definition top_predictions_chart (results : list Prediction) : BarChart :=
  let diseases := map disease results in
  let confidences := map confidence results in
  {| bar_names := short_names diseases;
     bar_widths := confidences;
     bar_colors := ["#4CAF50"; "#FFC107"; "#FF9800"];
     xlim := (0, 1)%Q;
     xlabel := "Confidence";
     title := "Disease Confidence Scores";
     yaxis_inverted := true |}.

(** [barh] puts the bar of the [i]-th name at height [i], upwards (the
    names being different, as the shortened labels of different catalog
    entries are); inverting the y axis puts the first bar at the top. *)
Definition bars_top_to_bottom (c : BarChart) : list (string * f64) :=
  let bars := combine (bar_names c) (bar_widths c) in
  if yaxis_inverted c then bars else rev bars.

Record ResultsColumn : Type := mkColumn {
  primary_disease : string;
  primary_confidence : f64;
  treatments : list string;
  chart : BarChart
}.

(** The right-hand column: drawn only when [st.session_state.results] is
    truthy, that is neither [None] nor an empty list. *)
Definition results_column (ss : SessionState) : option ResultsColumn :=
  match results ss with
  | Some ((r0 :: _) as rs) =>
      Some {| primary_disease := disease r0;
              primary_confidence := confidence r0;
              treatments := get_treatments (disease r0);
              chart := top_predictions_chart rs |}
  | _ => None
  end.

(** ** Exceptions *)

Inductive exn : Type :=
| IndexError.

Inductive result (A : Type) : Type :=
| Ok (a : A)
| Raise (e : exn).

Arguments Ok {A} a.
Arguments Raise {A} e.

Definition bind {A B : Type} (r : result A) (k : A -> result B) : result B :=
  match r with
  | Ok a => k a
  | Raise e => Raise e
  end.

Notation "x <- c ;; k" := (bind c (fun x => k))
  (at level 61, c at next level, right associativity).

(** A [for] loop that appends one value per element. *)
Fixpoint for_each {A B : Type} (l : list A) (body : A -> result B)
    : result (list B) :=
  match l with
  | [] => Ok []
  | a :: l' =>
      b <- body a ;;
      bs <- for_each l' body ;;
      Ok (b :: bs)
  end.

(** [l[idx]] for an index [idx >= 0]. *)
Definition getitem {A : Type} (l : list A) (idx : nat) : result A :=
  match nth_error l idx with
  | Some a => Ok a
  | None => Raise IndexError
  end.

(** ** The mock detector *)

(** [xs.sum()], numpy's [add.reduce] on a contiguous array of at most 128
    elements: below 8 elements a plain loop; otherwise eight running sums
    over the blocks of 8, combined as a balanced tree, then the remaining
    elements one by one.  Each addition rounds. *)
Fixpoint add_blocks (blocks : nat) (r rest : list f64) : list f64 * list f64 :=
  match blocks with
  | O => (r, rest)
  | S blocks' =>
      add_blocks blocks' (map (fun p => f64_add (fst p) (snd p)) (combine r (firstn 8 rest)))
                 (skipn 8 rest)
  end.

Definition np_sum (xs : list f64) : f64 :=
  let n := List.length xs in
  if (n <? 8)%nat then fold_left f64_add xs (Fin 0)
  else
    let '(r, rest) := add_blocks (n / 8 - 1) (firstn 8 xs) (skipn 8 xs) in
    let r_ i := nth i r (Fin 0) in
    let res := f64_add (f64_add (f64_add (r_ 0%nat) (r_ 1%nat)) (f64_add (r_ 2%nat) (r_ 3%nat)))
                       (f64_add (f64_add (r_ 4%nat) (r_ 5%nat)) (f64_add (r_ 6%nat) (r_ 7%nat))) in
    fold_left f64_add rest res.

(** [xs / s]: elementwise division of an array by a scalar.  Each division
    rounds. *)
Definition np_divide (xs : list f64) (s : f64) : list f64 :=
  map (fun x => f64_div x s) xs.

Section Detector.

(** numpy's global random generator: its state, [np.random.shuffle] and
    [np.random.rand], which returns finite floats, given by their values;
    [np.argsort]; the type of images. *)
Variable RandomState : Type.
Variable shuffle : list string -> RandomState -> list string * RandomState.
Variable rand : nat -> RandomState -> list Q * RandomState.
Variable argsort : list f64 -> list nat.
Variable Image : Type.

(** [detect_disease], with the module global [CLASS_NAMES] it reads as a
    parameter. *)
Definition detect_disease_of (catalog : list string)
    (image : option Image) (st : RandomState)
    : result (list Prediction) * RandomState :=
  let '(diseases, st) := shuffle catalog st in
  let '(confidences, st) := rand (List.length catalog) st in
  let confidences := map Fin confidences in
  let confidences := np_divide confidences (np_sum confidences) in
  let top_indices := firstn 3 (rev (argsort confidences)) in
  (for_each top_indices (fun idx =>
     d <- getitem catalog idx ;;
     c <- getitem confidences idx ;;
     Ok {| disease := d; confidence := c |}),
   st).

Definition detect_disease := detect_disease_of CLASS_NAMES.

(** The array drawn by [np.random.rand] in a run started in state [st],
    and the array [confidences] after the division: one value per label,
    before the top three are picked. *)
Definition raw_scores (catalog : list string) (st : RandomState) : list Q :=
  fst (rand (List.length catalog) (snd (shuffle catalog st))).

Definition confidence_distribution (catalog : list string)
    (st : RandomState) : list f64 :=
  let confidences := map Fin (raw_scores catalog st) in
  np_divide confidences (np_sum confidences).

End Detector.

Arguments detect_disease_of {RandomState} shuffle rand argsort {Image}.
Arguments detect_disease {RandomState} shuffle rand argsort {Image}.
Arguments raw_scores {RandomState} shuffle rand.
Arguments confidence_distribution {RandomState} shuffle rand.

(** ** What the specification asks of a scan result *)

Definition confidences_of (rs : list Prediction) : list f64 := map confidence rs.

(** Non-increasing in the sort order, and strictly decreasing. *)
Definition descending (cs : list f64) : Prop :=
  StronglySorted (fun a b => sort_le b a) cs.

Definition strictly_descending (cs : list f64) : Prop :=
  StronglySorted (fun a b => f64_ltb b a = true) cs.

(** Position of a label in a catalog (its length when absent). *)
Fixpoint catalog_index (catalog : list string) (label : string) : nat :=
  match catalog with
  | [] => 0
  | l :: catalog' =>
      if String.eqb label l then 0 else S (catalog_index catalog' label)
  end.

(** Descending by confidence, an exact tie putting the earlier catalog
    entry first. *)
Definition ranked_before (catalog : list string) (a b : Prediction) : Prop :=
  f64_ltb (confidence b) (confidence a) = true \/
  (f64_eqb (confidence a) (confidence b) = true /\
   (catalog_index catalog (disease a) < catalog_index catalog (disease b))%nat).

Definition catalog_ranked (catalog : list string) (rs : list Prediction) : Prop :=
  StronglySorted (ranked_before catalog) rs.

(** Exact sum of a list of rationals, and of finite floats. *)
Definition Qsum (qs : list Q) : Q := fold_right Qplus 0%Q qs.

Fixpoint finite_values (cs : list f64) : option (list Q) :=
  match cs with
  | [] => Some []
  | Fin q :: cs' => option_map (cons q) (finite_values cs')
  | _ :: _ => None
  end.

(** ** Quantities of the rounding analysis *)

(** The value [round_positive] rounds [q] to, before the overflow test. *)
Definition rp_value (q : Q) : Q :=
  (inject_Z (round_half_even (q / 2 ^ ulp_exponent q)) * 2 ^ ulp_exponent q)%Q.

(** The values [np.random.rand] draws: the multiples [k / 2^53] of the
    interval [0, 1), each of them a binary64 number. *)
Definition unit_float (x : Q) : Prop :=
  exists k : Z, (0 <= k < 2 ^ 53)%Z /\ (x == inject_Z k * 2 ^ (-53))%Q.

Fixpoint qpow (b : Q) (k : nat) : Q :=
  match k with
  | O => 1%Q
  | S k' => (b * qpow b k')%Q
  end.

(** The factors between which one rounding keeps a number of the normal
    range. *)
Definition rel_lo : Q := (1 - 2 ^ (-53))%Q.
Definition rel_hi : Q := (1 + 2 ^ (-53))%Q.

(** A sum of the terms [L] computed with at most [k] nested additions:
    it is finite, at least every term, and within the factors
    [rel_lo ^ k] and [rel_hi ^ k] of the exact sum. *)
Definition partial_sum (L : list Q) (k : nat) (v : f64) : Prop :=
  exists q, v = Fin q
            /\ Forall (fun x => x <= q)%Q L
            /\ (Qsum L * qpow rel_lo k <= q)%Q
            /\ (q <= Qsum L * qpow rel_hi k)%Q.

(** Two floats with the same value. *)
Definition f64_same (a b : f64) : bool :=
  match a, b with
  | Fin x, Fin y => Qeq_bool x y
  | PInf, PInf | NInf, NInf | NaN, NaN => true
  | _, _ => false
  end.

Fixpoint all_same (xs ys : list f64) : bool :=
  match xs, ys with
  | [], [] => true
  | x :: xs', y :: ys' => f64_same x y && all_same xs' ys'
  | _, _ => false
  end.

(** ** A replayable random source and a stable argsort

    Concrete instances of the parameters of [Detector], used to run the
    detector on explicit inputs.  The state of the source is the tape of
    the 53-bit integers it will produce next (zero when the tape is
    exhausted); [rand] scales them to the interval [0, 1) as numpy's
    generator does, and [shuffle] is a Fisher-Yates loop in the manner of
    [np.random.shuffle], one integer per swap. *)

Module Tape.

Definition t : Type := list N.

Definition next (st : t) : N * t :=
  match st with
  | [] => (0%N, [])
  | k :: st' => (k, st')
  end.

Definition unit_interval (k : N) : Q :=
  Z.of_N (k mod 2 ^ 53) # (2 ^ 53).

Fixpoint rand (n : nat) (st : t) : list Q * t :=
  match n with
  | O => ([], st)
  | S n' =>
      let '(k, st) := next st in
      let '(xs, st) := rand n' st in
      (unit_interval k :: xs, st)
  end.

Fixpoint set_nth {A : Type} (i : nat) (x : A) (l : list A) : list A :=
  match l, i with
  | [], _ => []
  | _ :: l', O => x :: l'
  | a :: l', S i' => a :: set_nth i' x l'
  end.

Definition swap {A : Type} (i j : nat) (l : list A) : list A :=
  match nth_error l i, nth_error l j with
  | Some a, Some b => set_nth i b (set_nth j a l)
  | _, _ => l
  end.

Fixpoint shuffle_from {A : Type} (i : nat) (l : list A) (st : t) : list A * t :=
  match i with
  | O => (l, st)
  | S i' =>
      let '(k, st) := next st in
      let j := N.to_nat (k mod N.of_nat (S i)) in
      shuffle_from i' (swap i j l) st
  end.

Definition shuffle {A : Type} (l : list A) (st : t) : list A * t :=
  shuffle_from (List.length l - 1) l st.

End Tape.

(** Insertion sort of the indices by their values, with which numpy's
    default sort finishes arrays this short: equal values keep the order of
    their indices. *)
Fixpoint insert_by (key : nat -> f64) (i : nat) (l : list nat) : list nat :=
  match l with
  | [] => [i]
  | j :: l' =>
      if sort_leb (key i) (key j) then i :: l else j :: insert_by key i l'
  end.

Definition stable_argsort (xs : list f64) : list nat :=
  fold_right (insert_by (fun i => nth i xs NaN)) [] (seq 0 (List.length xs)).

(** A stand-in for the shuffle that leaves the list as it is and uses the
    generator as the shuffle does. *)
Definition skip_shuffle (l : list string) (st : Tape.t) : list string * Tape.t :=
  (l, snd (Tape.shuffle l st)).

(** The detector run on a tape. *)
Definition detect_disease_on_tape (image : option unit) (st : Tape.t)
    : result (list Prediction) * Tape.t :=
  detect_disease Tape.shuffle Tape.rand stable_argsort image st.

(** Ten draws of one half each, after the nine integers the shuffle uses. *)
Definition tied_tape : Tape.t :=
  repeat 0%N 9 ++ repeat (2 ^ 52)%N 10.

(** Draws 1/16, 2/16, ..., 10/16. *)
Definition ramp_tape : Tape.t :=
  repeat 0%N 9 ++ map (fun a => (a * 2 ^ 49)%N) [1; 2; 3; 4; 5; 6; 7; 8; 9; 10]%N.

(** ** The normalisation in binary64

    Lines 149-150 of [detect_disease] once more, this time on the
    machine's own floats, whose operations round to the nearest binary64
    value in hardware.  The draws come from the same tape. *)

Module Binary64.

Import PrimFloat.

Definition unit_interval (k : N) : float :=
  (of_uint63 (Uint63.of_Z (Z.of_N (k mod 2 ^ 53))) / 9007199254740992)%float.

Fixpoint rand (n : nat) (st : Tape.t) : list float * Tape.t :=
  match n with
  | O => ([], st)
  | S n' =>
      let '(k, st) := Tape.next st in
      let '(xs, st) := rand n' st in
      (unit_interval k :: xs, st)
  end.

(** Python's builtin [sum]: left to right. *)
Definition sum_sequential (xs : list float) : float :=
  fold_left add xs 0%float.

(** numpy's [add.reduce] on a contiguous array of at most 128 elements:
    below 8 elements a plain loop; otherwise eight running sums over the
    blocks of 8, combined as a balanced tree, then the remaining elements
    one by one. *)
Fixpoint add_blocks (blocks : nat) (r rest : list float) : list float * list float :=
  match blocks with
  | O => (r, rest)
  | S blocks' =>
      add_blocks blocks' (map (fun p => (fst p + snd p)%float) (combine r (firstn 8 rest)))
                 (skipn 8 rest)
  end.

Definition sum_pairwise (xs : list float) : float :=
  let n := List.length xs in
  if (n <? 8)%nat then fold_left add xs 0%float
  else
    let '(r, rest) := add_blocks (n / 8 - 1) (firstn 8 xs) (skipn 8 xs) in
    let r_ i := nth i r 0%float in
    let res := (((r_ 0%nat + r_ 1%nat) + (r_ 2%nat + r_ 3%nat))
                + ((r_ 4%nat + r_ 5%nat) + (r_ 6%nat + r_ 7%nat)))%float in
    fold_left add rest res.

Definition np_sum := sum_pairwise.

Definition np_divide (xs : list float) (s : float) : list float :=
  map (fun x => (x / s)%float) xs.

Definition confidence_distribution (catalog : list string) (st : Tape.t)
    : list float :=
  let confidences := fst (rand (List.length catalog) (snd (Tape.shuffle catalog st))) in
  np_divide confidences (np_sum confidences).

(** The rational a finite binary64 value denotes. *)
Definition exact_value (x : float) : option Q :=
  match FloatOps.Prim2SF x with
  | SpecFloat.S754_zero _ => Some 0%Q
  | SpecFloat.S754_finite s m e =>
      let v := (inject_Z (Zpos m) * (2 ^ e))%Q in
      Some (if s then (- v)%Q else v)
  | _ => None
  end.

Fixpoint exact_sum (xs : list float) : option Q :=
  match xs with
  | [] => Some 0%Q
  | x :: xs' =>
      match exact_value x, exact_sum xs' with
      | Some q, Some s => Some (q + s)%Q
      | _, _ => None
      end
  end.

(** The value of a machine float. *)
Definition value (x : float) : f64 :=
  match FloatOps.Prim2SF x with
  | SpecFloat.S754_zero _ => Fin 0
  | SpecFloat.S754_finite s m e =>
      let v := (inject_Z (Zpos m) * 2 ^ e)%Q in
      Fin (if s then (- v)%Q else v)
  | SpecFloat.S754_infinity s => if s then NInf else PInf
  | SpecFloat.S754_nan => NaN
  end.

(** Does [round64] give the machine's quotient and sum of two finite
    floats? *)
Definition div_agrees (p : float * float) : bool :=
  f64_same (value (fst p / snd p)%float) (f64_div (value (fst p)) (value (snd p))).

Definition add_agrees (p : float * float) : bool :=
  f64_same (value (fst p + snd p)%float) (f64_add (value (fst p)) (value (snd p))).

#[local] Set Warnings "-inexact-float".

(** Pairs of machine floats on which [round64] is compared with the
    machine: quotients and sums that are inexact, exact, subnormal,
    overflowing, negative. *)
Definition rounding_samples : list (float * float) :=
  [(1, 3); (0.5, 5); (1, 10); (0.1, 0.3); (7, 9); (1e-300, 1e10); (1e-320, 3);
   (1e308, 1e-10); (5e-324, 2); (5e-324, 4); (1.5e-323, 2); (3, 7); (-1, 3); (-7, 9);
   (0x1.fffffffffffffp1023, 0x1.fffffffffffffp-1); (0.3125, 4.375); (0.9375, 4.375);
   (2.2250738585072014e-308, 1.0000000000000002); (1, 0x1.fffffffffffffp-1)]%float.

End Binary64.

(** Draws 5/16, 1/16, 9/16, 9/16, 15/16, 15/16, 1/16, 5/16, 1/16, 9/16:
    multiples of 1/16, so that every partial sum of the draws is exact
    whatever the order of summation. *)
Definition sixteenths_tape : Tape.t :=
  repeat 0%N 9 ++ map (fun a => (a * 2 ^ 49)%N) [5; 1; 9; 9; 15; 15; 1; 5; 1; 9]%N.

(** Draws of about 0.99, 0.98, 0.9, 0.9 and six of about 0.38.  The third
    draw is the fourth plus [2^-53]; divided by the sum, of about 6.05,
    the two round to the same binary64 number. *)
Definition rounding_tie_tape : Tape.t :=
  repeat 0%N 9 ++
  [8917127262193582; 8827055269646458; 8106479329266894; 8106479329266893;
   3422735716801577; 3422735716801576; 3422735716801575; 3422735716801574;
   3422735716801573; 3422735716801572]%N.

(** ** One run of the script

    Streamlit runs [main] from the top at every interaction.  The values
    the widgets return in a run are the inputs of that run; a button
    returns [True] only in the run its click has triggered.
    [st.experimental_rerun()] stops the run at once and starts another
    one. *)

Inductive CamOption : Type :=
| UseCamera
| UploadImage
| UseSample.

Record Widgets (File : Type) : Type := mkWidgets {
  cam_option : CamOption;
  video_receiver : bool;
  capture_clicked : bool;
  uploaded_file : option File;
  analyze_clicked : bool;
  early_blight_clicked : bool;
  late_blight_clicked : bool;
  healthy_leaf_clicked : bool;
  new_scan_clicked : bool
}.

Arguments mkWidgets {File}.
Arguments cam_option {File} w.
Arguments video_receiver {File} w.
Arguments capture_clicked {File} w.
Arguments uploaded_file {File} w.
Arguments analyze_clicked {File} w.
Arguments early_blight_clicked {File} w.
Arguments late_blight_clicked {File} w.
Arguments healthy_leaf_clicked {File} w.
Arguments new_scan_clicked {File} w.

(** The widgets as the run started by [st.experimental_rerun()] sees them:
    the same values, no button clicked. *)
Definition rerun_widgets {File : Type} (w : Widgets File) : Widgets File :=
  {| cam_option := cam_option w;
     video_receiver := video_receiver w;
     capture_clicked := false;
     uploaded_file := uploaded_file w;
     analyze_clicked := false;
     early_blight_clicked := false;
     late_blight_clicked := false;
     healthy_leaf_clicked := false;
     new_scan_clicked := false |}.

(** The sample button whose assignment to the results is the last one
    executed: the buttons are tested in column order. *)
Definition last_sample_click {File : Type} (w : Widgets File) : option SampleButton :=
  if healthy_leaf_clicked w then Some TestHealthyLeaf
  else if late_blight_clicked w then Some TestLateBlight
  else if early_blight_clicked w then Some TestEarlyBlight
  else None.

(** [st.session_state] as the script finds it: a key may be missing. *)
Record StoredSession : Type := mkStored {
  stored_camera_active : option bool;
  stored_processing : option bool;
  stored_results : option (option (list Prediction))
}.

Definition new_session : StoredSession :=
  {| stored_camera_active := None; stored_processing := None; stored_results := None |}.

(** The three [if ... not in st.session_state] of the start of [main]. *)
Definition initialize (stored : StoredSession) : SessionState :=
  {| camera_active := match stored_camera_active stored with Some b => b | None => false end;
     processing := match stored_processing stored with Some b => b | None => false end;
     results := match stored_results stored with Some r => r | None => None end |}.

Definition set_camera_active (b : bool) (ss : SessionState) : SessionState :=
  {| camera_active := b; processing := processing ss; results := results ss |}.

Definition set_processing (b : bool) (ss : SessionState) : SessionState :=
  {| camera_active := camera_active ss; processing := b; results := results ss |}.

Definition set_results (r : option (list Prediction)) (ss : SessionState) : SessionState :=
  {| camera_active := camera_active ss; processing := processing ss; results := r |}.

(** The status indicator: the colour of the dot and the text. *)
Definition status_indicator (ss : SessionState) : string * string :=
  if processing ss then ("#FFC107", "Analyzing leaf...")
  else if camera_active ss then ("#4CAF50", "Camera active - ready to scan")
  else ("#ff9800", "Ready to scan").

(** What a run that reaches its end has drawn: the status indicator and,
    in the right-hand column, the results or the placeholder ([None]). *)
Record View : Type := mkView {
  status_dot_color : string;
  status_text : string;
  column : option ResultsColumn
}.

Inductive ScriptError : Type :=
| DetectorRaised (e : exn)
| CannotOpenImage.

Inductive Ending : Type :=
| Finished (v : View)
| RerunRequested
| Raised (err : ScriptError).

Section Script.

Variable RandomState : Type.
Variable shuffle : list string -> RandomState -> list string * RandomState.
Variable rand : nat -> RandomState -> list Q * RandomState.
Variable argsort : list f64 -> list nat.

(** Images, uploaded files, and [Image.open], which raises on a file it
    cannot read ([None]). *)
Variable Image : Type.
Variable File : Type.
Variable image_open : File -> option Image.

Record RunResult : Type := mkRun {
  final_session : SessionState;
  final_random : RandomState;
  ended : Ending
}.

(** The body of each [with st.spinner(...)]. *)
Definition analyze (image : option Image) (ss : SessionState) (st : RandomState)
    : RunResult :=
  let '(r, st) := detect_disease shuffle rand argsort image st in
  match r with
  | Raise e =>
      {| final_session := ss; final_random := st; ended := Raised (DetectorRaised e) |}
  | Ok rs =>
      let ss := set_results (Some rs) ss in
      let ss := set_processing false ss in
      let ss := set_camera_active false ss in
      {| final_session := ss; final_random := st; ended := RerunRequested |}
  end.

Inductive Flow : Type :=
| Continue (ss : SessionState)
| Stop (r : RunResult).

(** The left-hand column up to the status indicator. *)
Definition column1 (w : Widgets File) (ss : SessionState) (st : RandomState) : Flow :=
  match cam_option w with
  | UseCamera =>
      let ss := set_camera_active true ss in
      let ss := set_results None ss in
      if video_receiver w then
        if capture_clicked w then
          let ss := set_processing true ss in
          Stop (analyze None ss st)
        else Continue ss
      else Continue ss
  | UploadImage =>
      match uploaded_file w with
      | Some f =>
          let ss := set_processing true ss in
          match image_open f with
          | None =>
              Stop {| final_session := ss; final_random := st;
                      ended := Raised CannotOpenImage |}
          | Some image =>
              if analyze_clicked w then Stop (analyze (Some image) ss st)
              else Continue ss
          end
      | None => Continue ss
      end
  | UseSample =>
      let ss := if early_blight_clicked w then click_sample TestEarlyBlight ss else ss in
      let ss := if late_blight_clicked w then click_sample TestLateBlight ss else ss in
      let ss := if healthy_leaf_clicked w then click_sample TestHealthyLeaf ss else ss in
      Continue ss
  end.

(** The right-hand column, after the status indicator has been drawn. *)
Definition column2 (w : Widgets File) (ss : SessionState) (st : RandomState)
    (status : string * string) : RunResult :=
  match results_column ss with
  | Some col =>
      if new_scan_clicked w then
        let ss := set_results None ss in
        let ss := set_camera_active false ss in
        let ss := set_processing false ss in
        {| final_session := ss; final_random := st; ended := RerunRequested |}
      else
        {| final_session := ss; final_random := st;
           ended := Finished {| status_dot_color := fst status;
                                status_text := snd status;
                                column := Some col |} |}
  | None =>
      {| final_session := ss; final_random := st;
         ended := Finished {| status_dot_color := fst status;
                              status_text := snd status;
                              column := None |} |}
  end.

(** [main], once the session state has its three keys. *)
Definition main_body (w : Widgets File) (ss : SessionState) (st : RandomState)
    : RunResult :=
  match column1 w ss st with
  | Stop r => r
  | Continue ss => column2 w ss st (status_indicator ss)
  end.

Definition main (w : Widgets File) (stored : StoredSession) (st : RandomState)
    : RunResult :=
  main_body w (initialize stored) st.

End Script.

Arguments final_session {RandomState} r.
Arguments final_random {RandomState} r.
Arguments ended {RandomState} r.
Arguments mkRun {RandomState}.
Arguments main_body {RandomState} shuffle rand argsort {Image File} image_open.
Arguments main {RandomState} shuffle rand argsort {Image File} image_open.
Arguments analyze {RandomState} shuffle rand argsort {Image}.

(** The script on a tape, with files that are their own image except
    the unreadable ones. *)
Definition open_unless_broken (f : bool) : option unit :=
  if f then Some tt else None.

Definition main_on_tape (w : Widgets bool) (ss : SessionState) (st : Tape.t)
    : RunResult Tape.t :=
  main_body Tape.shuffle Tape.rand stable_argsort open_unless_broken w ss st.

Definition idle (mode : CamOption) : Widgets bool :=
  {| cam_option := mode;
     video_receiver := false;
     capture_clicked := false;
     uploaded_file := None;
     analyze_clicked := false;
     early_blight_clicked := false;
     late_blight_clicked := false;
     healthy_leaf_clicked := false;
     new_scan_clicked := false |}.

Definition capture : Widgets bool :=
  {| cam_option := UseCamera;
     video_receiver := true;
     capture_clicked := true;
     uploaded_file := None;
     analyze_clicked := false;
     early_blight_clicked := false;
     late_blight_clicked := false;
     healthy_leaf_clicked := false;
     new_scan_clicked := false |}.

Definition upload (f : bool) (click : bool) : Widgets bool :=
  {| cam_option := UploadImage;
     video_receiver := false;
     capture_clicked := false;
     uploaded_file := Some f;
     analyze_clicked := click;
     early_blight_clicked := false;
     late_blight_clicked := false;
     healthy_leaf_clicked := false;
     new_scan_clicked := false |}.

Definition blank_session : SessionState :=
  {| camera_active := false; processing := false; results := None |}.

Definition click (b : SampleButton) (new_scan : bool) : Widgets bool :=
  {| cam_option := UseSample;
     video_receiver := false;
     capture_clicked := false;
     uploaded_file := None;
     analyze_clicked := false;
     early_blight_clicked := match b with TestEarlyBlight => true | _ => false end;
     late_blight_clicked := match b with TestLateBlight => true | _ => false end;
     healthy_leaf_clicked := match b with TestHealthyLeaf => true | _ => false end;
     new_scan_clicked := new_scan |}.

Definition new_scan : Widgets bool :=
  {| cam_option := UseSample;
     video_receiver := false;
     capture_clicked := false;
     uploaded_file := None;
     analyze_clicked := false;
     early_blight_clicked := false;
     late_blight_clicked := false;
     healthy_leaf_clicked := false;
     new_scan_clicked := true |}.

(** * Properties *)

(** ** Strings *)

Lemma startswith_spec (p s : string) :
  Py.startswith p s = true <-> exists post, s = (p ++ post)%string.
Proof.
  revert s; induction p as [|a p IH]; intros s; simpl.
  - split; [intros _; now exists s | reflexivity].
  - destruct s as [|b s]; simpl.
    + split; [discriminate | intros [post H]; discriminate].
    + rewrite andb_true_iff, Ascii.eqb_eq, IH. split.
      * intros [-> [post ->]]. now exists post.
      * intros [post H]. injection H as -> ->. split; [reflexivity | now exists post].
Qed.

(** [p in s] holds exactly when [s] is [pre ++ p ++ post]. *)
Lemma str_in_spec (p s : string) :
  Py.str_in p s = true <-> exists pre post, s = (pre ++ p ++ post)%string.
Proof.
  induction s as [|c s IH]; simpl; rewrite orb_true_iff, startswith_spec.
  - split.
    + intros [[post H] | H]; [|discriminate]. now exists "", post.
    + intros [pre [post H]]. left. destruct pre; simpl in H; [now exists post | discriminate].
  - rewrite IH. split.
    + intros [[post H] | [pre [post H]]].
      * now exists "", post.
      * exists (String c pre), post. simpl. now rewrite H.
    + intros [pre [post H]]. destruct pre as [|c' pre]; simpl in H.
      * left. now exists post.
      * right. injection H as _ H. now exists pre, post.
Qed.

Lemma string_length_app (s t : string) :
  String.length (s ++ t)%string = (String.length s + String.length t)%nat.
Proof. induction s; simpl; congruence. Qed.

Lemma take_length (n : nat) (s : string) :
  (String.length (Py.take n s) <= n)%nat.
Proof.
  revert s; induction n; intros [|c s]; simpl; try lia.
  specialize (IHn s). lia.
Qed.

Lemma take_all (n : nat) (s : string) :
  (String.length s <= n)%nat -> Py.take n s = s.
Proof.
  revert s; induction n; intros [|c s]; simpl; intros H; try reflexivity; try lia.
  rewrite IHn; [reflexivity | lia].
Qed.

(** On a name that starts with the crop name and has no second
    occurrence of it, [replace] strips the prefix. *)
Lemma replace_from_absent (old new s : string) :
  Py.str_in old s = false -> Py.replace_from old new 0 s = s.
Proof.
  induction s as [|c s IH]; simpl; [reflexivity|].
  intros H. apply orb_false_iff in H as [H1 H2].
  simpl in H1. rewrite H1. now rewrite IH.
Qed.

Lemma replace_from_skip (old new : string) (k : nat) (s t : string) :
  String.length s = k -> Py.replace_from old new k (s ++ t)%string = Py.replace_from old new 0 t.
Proof.
  revert k; induction s as [|c s IH]; intros k H; simpl in *; subst k.
  - reflexivity.
  - destruct t; simpl; now rewrite IH.
Qed.

Lemma replace_tomato_prefix (rest : string) :
  Py.str_in "Tomato " rest = false ->
  Py.replace "Tomato " "" ("Tomato " ++ rest)%string = rest.
Proof.
  intros H. unfold Py.replace.
  change ("Tomato " ++ rest)%string with (String "T" ("omato " ++ rest)%string).
  cbn [Py.replace_from].
  replace (Py.startswith "Tomato " (String "T" ("omato " ++ rest)%string)) with true
    by (symmetry; apply startswith_spec; now exists rest).
  rewrite (replace_from_skip "Tomato " "" (String.length "Tomato " - 1) "omato " rest eq_refl).
  now rewrite replace_from_absent.
Qed.

(** ** Treatment recommendations *)

Lemma advice_lists_nonempty :
  healthy_advice <> [] /\ early_blight_advice <> [] /\ late_blight_advice <> []
  /\ septoria_advice <> [] /\ default_advice <> [].
Proof. repeat split; discriminate. Qed.

(** C3.  For every disease name, [get_treatments] is the first-match
    lookup in the ordered rules "Healthy", "Early Blight", "Late Blight",
    "Septoria" with the default advice when none matches; a rule is used
    exactly when its pattern is a substring of the name and no earlier
    pattern is; and the advice returned is never empty. *)
Theorem get_treatments_first_match (name : string) :
  get_treatments name = treatments_by_rules name
  /\ map fst treatment_rules = ["Healthy"; "Early Blight"; "Late Blight"; "Septoria"]
  /\ (Py.str_in "Healthy" name = true -> get_treatments name = healthy_advice)
  /\ (Py.str_in "Healthy" name = false -> Py.str_in "Early Blight" name = true ->
      get_treatments name = early_blight_advice)
  /\ (Py.str_in "Healthy" name = false -> Py.str_in "Early Blight" name = false ->
      Py.str_in "Late Blight" name = true -> get_treatments name = late_blight_advice)
  /\ (Py.str_in "Healthy" name = false -> Py.str_in "Early Blight" name = false ->
      Py.str_in "Late Blight" name = false -> Py.str_in "Septoria" name = true ->
      get_treatments name = septoria_advice)
  /\ (Py.str_in "Healthy" name = false -> Py.str_in "Early Blight" name = false ->
      Py.str_in "Late Blight" name = false -> Py.str_in "Septoria" name = false ->
      get_treatments name = default_advice)
  /\ get_treatments name <> [].
Proof.
  unfold get_treatments, treatments_by_rules, first_match, treatment_rules.
  cbn [find fst snd map].
  destruct (Py.str_in "Healthy" name), (Py.str_in "Early Blight" name),
    (Py.str_in "Late Blight" name), (Py.str_in "Septoria" name);
    repeat split; intros; try reflexivity; try discriminate.
Qed.

(** The first rule wins over a later one that matches too. *)
Example get_treatments_priority :
  Py.str_in "Early Blight" "Healthy (no Early Blight)" = true
  /\ get_treatments "Healthy (no Early Blight)" = healthy_advice.
Proof. split; reflexivity. Qed.

Lemma get_treatments_on_catalog :
  map get_treatments CLASS_NAMES =
  [default_advice; early_blight_advice; late_blight_advice; default_advice;
   septoria_advice; default_advice; default_advice; default_advice;
   default_advice; healthy_advice].
Proof. reflexivity. Qed.

(** ** Chart labels *)

(** Every shortened label is at most 20 characters of the stripped name,
    followed or not by the ellipsis; whether it is followed by one depends
    on the length of the name before stripping. *)
Lemma short_name_shape (name : string) :
  exists body : string,
    body = Py.take 20 (Py.replace "Tomato " "" name)
    /\ (String.length body <= 20)%nat
    /\ short_name name =
       (if (20 <? String.length name)%nat then body ++ "..." else body)%string.
Proof.
  exists (Py.take 20 (Py.replace "Tomato " "" name)).
  split; [reflexivity|]. split; [apply take_length|].
  unfold short_name. destruct (20 <? String.length name)%nat; [reflexivity|].
  generalize (Py.take 20 (Py.replace "Tomato " "" name)).
  induction s; simpl; congruence.
Qed.

Lemma short_name_length (name : string) :
  (String.length (short_name name) <= 23)%nat.
Proof.
  destruct (short_name_shape name) as [body [_ [Hlen ->]]].
  destruct (20 <? String.length name)%nat; [|lia].
  rewrite string_length_app. simpl. lia.
Qed.

(** On a name made of the crop name and a rest without it, the ellipsis
    is appended when the whole name, crop name included, is longer than 20
    characters: when the rest is longer than 13. *)
Lemma short_name_of_tomato (rest : string) :
  Py.str_in "Tomato " rest = false ->
  short_name ("Tomato " ++ rest) =
  (Py.take 20 rest ++ (if (13 <? String.length rest)%nat then "..." else ""))%string.
Proof.
  intros H. unfold short_name. rewrite (replace_tomato_prefix rest H).
  rewrite string_length_app. simpl String.length.
  replace (20 <? 7 + String.length rest)%nat with (13 <? String.length rest)%nat; [reflexivity|].
  destruct (13 <? String.length rest)%nat eqn:E; symmetry.
  - apply Nat.ltb_lt in E. apply Nat.ltb_lt. lia.
  - apply Nat.ltb_ge in E. apply Nat.ltb_ge. lia.
Qed.

Lemma short_names_of_catalog_NoDup : NoDup (short_names CLASS_NAMES).
Proof.
  apply (NoDup_nth (short_names CLASS_NAMES) ""). intros i j Hi Hj.
  simpl in Hi, Hj.
  do 10 (destruct i as [|i]; [do 10 (destruct j as [|j]; [simpl; try discriminate; reflexivity|]); simpl in Hj; lia|]).
  simpl in Hi; lia.
Qed.

Lemma short_names_of_catalog :
  short_names CLASS_NAMES =
  ["Bacterial Spot..."; "Early Blight"; "Late Blight"; "Leaf Mold";
   "Septoria Leaf Spot..."; "Spider Mites"; "Target Spot";
   "Yellow Leaf Curl Vir..."; "Mosaic Virus"; "Healthy Tomato"].
Proof. reflexivity. Qed.

(** C4.  The label "Tomato Bacterial Spot" is stripped to "Bacterial
    Spot", 14 characters, which is not truncated, and the ellipsis is
    appended all the same: the test is on the length of the name before
    stripping (21). *)
Theorem short_name_ellipsis_without_truncation :
  Py.replace "Tomato " "" "Tomato Bacterial Spot" = "Bacterial Spot"
  /\ String.length "Bacterial Spot" = 14%nat
  /\ Py.take 20 "Bacterial Spot" = "Bacterial Spot"
  /\ String.length "Tomato Bacterial Spot" = 21%nat
  /\ short_name "Tomato Bacterial Spot" = "Bacterial Spot..."
  /\ short_label_by_rule "Tomato Bacterial Spot" = "Bacterial Spot".
Proof. repeat split. Qed.

(** On the catalog the code and the rule differ on two labels, the ones
    of 21 characters or more whose rest has 20 or fewer. *)
Lemma short_names_against_rule :
  map short_label_by_rule CLASS_NAMES =
  ["Bacterial Spot"; "Early Blight"; "Late Blight"; "Leaf Mold";
   "Septoria Leaf Spot"; "Spider Mites"; "Target Spot";
   "Yellow Leaf Curl Vir..."; "Mosaic Virus"; "Healthy Tomato"]
  /\ filter (fun name => negb (String.eqb (short_name name) (short_label_by_rule name)))
            CLASS_NAMES
     = ["Tomato Bacterial Spot"; "Tomato Septoria Leaf Spot"].
Proof. split; reflexivity. Qed.

(** ** The bar chart *)

Lemma combine_map_map {A B C : Type} (f : A -> B) (g : A -> C) (l : list A) :
  combine (map f l) (map g l) = map (fun a => (f a, g a)) l.
Proof. induction l; simpl; congruence. Qed.

Lemma bars_of_chart (rs : list Prediction) :
  bars_top_to_bottom (top_predictions_chart rs) =
  map (fun r => (short_name (disease r), confidence r)) rs.
Proof.
  unfold bars_top_to_bottom, top_predictions_chart, short_names; simpl.
  rewrite map_map. apply combine_map_map.
Qed.

(** C8.  The chart has one bar per prediction, (shortened label,
    confidence), drawn from top to bottom in the order of the input; its x
    axis is [0, 1]; and when the input is in descending order of
    confidence the top bar is a highest one. *)
Theorem chart_keeps_order (rs : list Prediction) :
  bars_top_to_bottom (top_predictions_chart rs) =
    map (fun r => (short_name (disease r), confidence r)) rs
  /\ List.length (bars_top_to_bottom (top_predictions_chart rs)) = List.length rs
  /\ xlim (top_predictions_chart rs) = (0, 1)%Q
  /\ (descending (confidences_of rs) ->
      forall top rest,
        bars_top_to_bottom (top_predictions_chart rs) = top :: rest ->
        Forall (fun bar => sort_le (snd bar) (snd top)) rest).
Proof.
  rewrite bars_of_chart. repeat split.
  - now rewrite length_map.
  - intros Hdesc top rest Hbars. destruct rs as [|r rs]; [discriminate|].
    simpl in Hbars. injection Hbars as <- <-.
    unfold descending, confidences_of in Hdesc. simpl in Hdesc.
    apply StronglySorted_inv in Hdesc as [_ Hall].
    rewrite Forall_map in *. simpl. exact Hall.
Qed.

Lemma chart_keeps_order_witness :
  descending (confidences_of (sample_results TestEarlyBlight))
  /\ Forall (fun bar => sort_le (snd bar) (Fin 0.92))
       [("Septoria Leaf Spot...", Fin 0.06); ("Late Blight", Fin 0.02)].
Proof.
  assert (H : descending (confidences_of (sample_results TestEarlyBlight))).
  { repeat constructor. }
  split; [exact H|].
  exact (proj2 (proj2 (proj2 (chart_keeps_order (sample_results TestEarlyBlight))))
           H ("Early Blight", Fin 0.92) _ eq_refl).
Defined.

(** ** The sample buttons *)

(** C6.  The "Early Blight" sample stores the three predictions (Tomato
    Early Blight, 0.92), (Tomato Septoria Leaf Spot, 0.06), (Tomato Late
    Blight, 0.02), and the treatments of "Tomato Early Blight" are the four
    early-blight items, the first being "Remove infected leaves
    immediately". *)
Theorem early_blight_sample :
  scan_from_preset "Early Blight" =
    Some [ {| disease := "Tomato Early Blight"; confidence := Fin 0.92 |};
           {| disease := "Tomato Septoria Leaf Spot"; confidence := Fin 0.06 |};
           {| disease := "Tomato Late Blight"; confidence := Fin 0.02 |} ]
  /\ (forall ss, results (click_sample TestEarlyBlight ss) = scan_from_preset "Early Blight")
  /\ get_treatments "Tomato Early Blight" = early_blight_advice
  /\ List.length (get_treatments "Tomato Early Blight") = 4%nat
  /\ hd_error (get_treatments "Tomato Early Blight") = Some "Remove infected leaves immediately"
  /\ (forall ss, option_map treatments (results_column (click_sample TestEarlyBlight ss))
                 = Some early_blight_advice).
Proof. repeat split. Qed.

(** C7.  The "Healthy" sample stores a result whose first prediction is
    (Healthy Tomato, 0.95), and the treatments of that label are the healthy
    advice, the first being "Continue regular monitoring". *)
Theorem healthy_sample :
  option_map (@hd_error Prediction) (scan_from_preset "Healthy") =
    Some (Some {| disease := "Healthy Tomato"; confidence := Fin 0.95 |})
  /\ (forall ss, results (click_sample TestHealthyLeaf ss) = scan_from_preset "Healthy")
  /\ get_treatments "Healthy Tomato" = healthy_advice
  /\ hd_error (get_treatments "Healthy Tomato") = Some "Continue regular monitoring"
  /\ (forall ss, option_map (fun c => (primary_disease c, primary_confidence c, treatments c))
                   (results_column (click_sample TestHealthyLeaf ss))
                 = Some ("Healthy Tomato", Fin 0.95, healthy_advice)).
Proof. repeat split. Qed.

(** C10.  Each of the three sample results has exactly 3 predictions,
    with labels of [CLASS_NAMES], confidences strictly descending, each in
    [0, 1], and summing to exactly 1. *)
Theorem sample_results_invariant (b : SampleButton) :
  List.length (sample_results b) = 3%nat
  /\ Forall (fun r => In (disease r) CLASS_NAMES) (sample_results b)
  /\ strictly_descending (confidences_of (sample_results b))
  /\ Forall in_unit (confidences_of (sample_results b))
  /\ exists qs, finite_values (confidences_of (sample_results b)) = Some qs
                /\ (Qsum qs == 1)%Q.
Proof.
  destruct b; (split; [reflexivity|]); (split; [repeat constructor; simpl; tauto|]);
    (split; [repeat constructor|]); (split; [repeat constructor; discriminate|]);
    eexists; (split; [reflexivity|]); reflexivity.
Qed.

Lemma scan_from_preset_names :
  map fst SAMPLE_IMAGES = ["Early Blight"; "Late Blight"; "Healthy"]
  /\ map scan_from_preset (map fst SAMPLE_IMAGES) = map (fun b => Some (sample_results b)) sample_columns
  /\ scan_from_preset "Septoria" = None.
Proof. repeat split. Qed.

(** ** The sort order *)

Lemma sort_le_refl (a : f64) : sort_le a a.
Proof.
  destruct a; unfold sort_le; simpl; try reflexivity.
  apply Qle_bool_iff, Qle_refl.
Qed.

Lemma sort_le_trans (a b c : f64) : sort_le a b -> sort_le b c -> sort_le a c.
Proof.
  unfold sort_le. destruct a, b, c; simpl; try congruence.
  rewrite !Qle_bool_iff. apply Qle_trans.
Qed.

Lemma sort_le_total (a b : f64) : sort_le a b \/ sort_le b a.
Proof.
  unfold sort_le. destruct a, b; simpl; auto.
  rewrite !Qle_bool_iff. destruct (Qlt_le_dec q q0); [left; lra | right; lra].
Qed.

Lemma f64_ltb_not_le (a b : f64) : f64_ltb a b = true -> ~ sort_le b a.
Proof.
  unfold sort_le, f64_ltb. destruct a, b; simpl; try discriminate;
    intros H; apply negb_true_iff in H; congruence.
Qed.

(** ** Lists in sort order *)

Lemma StronglySorted_snoc {A : Type} (R : A -> A -> Prop) (l : list A) (a : A) :
  StronglySorted R l -> Forall (fun x => R x a) l -> StronglySorted R (l ++ [a]).
Proof.
  induction 1 as [|x l Hl IH Hx]; intros Hall; simpl.
  - repeat constructor.
  - apply Forall_cons_iff in Hall as [Hxa Hall]. constructor; [now apply IH|].
    apply Forall_app. split; [exact Hx | now constructor].
Qed.

Lemma StronglySorted_rev {A : Type} (R : A -> A -> Prop) (l : list A) :
  StronglySorted R l -> StronglySorted (fun a b => R b a) (rev l).
Proof.
  induction 1 as [|x l Hl IH Hx]; simpl; [constructor|].
  apply StronglySorted_snoc; [exact IH|].
  apply Forall_rev. exact Hx.
Qed.

Lemma StronglySorted_firstn {A : Type} (R : A -> A -> Prop) (n : nat) (l : list A) :
  StronglySorted R l -> StronglySorted R (firstn n l).
Proof.
  intros H; revert n; induction H as [|x l Hl IH Hx]; intros [|n]; simpl; try constructor.
  - apply IH.
  - rewrite Forall_forall in *. intros y Hy. apply Hx.
    rewrite <- (firstn_skipn n l). apply in_or_app. now left.
Qed.

Lemma StronglySorted_map {A B : Type} (R : B -> B -> Prop) (f : A -> B) (l : list A) :
  StronglySorted (fun a b => R (f a) (f b)) l -> StronglySorted R (map f l).
Proof.
  induction 1 as [|x l Hl IH Hx]; simpl; constructor; [exact IH|].
  now rewrite Forall_map.
Qed.

Lemma StronglySorted_app_cross {A : Type} (R : A -> A -> Prop) (l1 l2 : list A) :
  StronglySorted R (l1 ++ l2) -> forall a b, In a l1 -> In b l2 -> R a b.
Proof.
  induction l1 as [|x l1 IH]; simpl; intros H a b Ha Hb; [tauto|].
  apply StronglySorted_inv in H as [Hs Hx]. destruct Ha as [-> | Ha].
  - rewrite Forall_forall in Hx. apply Hx, in_or_app. now right.
  - now apply IH.
Qed.

(** ** Rounding to binary64 *)

Section RoundingTheory.

Local Open Scope Q_scope.

(** Powers of two and the binary logarithm. *)

Lemma pow2_pos (z : Z) : 0 < 2 ^ z.
Proof. apply Qpower_0_lt. reflexivity. Qed.

Lemma pow2_add (a b : Z) : 2 ^ (a + b) == 2 ^ a * 2 ^ b.
Proof. apply Qpower_plus. discriminate. Qed.

Lemma pow2_succ (a : Z) : 2 ^ (a + 1) == 2 * 2 ^ a.
Proof. rewrite pow2_add. change (2 ^ 1) with 2. ring. Qed.

Lemma pow2_pred (a : Z) : 2 ^ (a - 1) == 2 ^ a / 2.
Proof.
  setoid_replace (2 ^ a) with (2 ^ (a - 1 + 1)) by (apply Qpower_comp; [reflexivity | lia]).
  rewrite pow2_succ. field.
Qed.

Lemma pow2_le (a b : Z) : (a <= b)%Z -> 2 ^ a <= 2 ^ b.
Proof. intros H. apply Qpower_le_compat_l; [exact H | discriminate]. Qed.

Lemma pow2_lt (a b : Z) : (a < b)%Z -> 2 ^ a < 2 ^ b.
Proof. intros H. apply Qpower_lt_compat_l; [exact H | reflexivity]. Qed.

Lemma pow2_lt_inv (a b : Z) : 2 ^ a < 2 ^ b -> (a < b)%Z.
Proof. intros H. apply (Qpower_lt_compat_l_inv 2); [exact H | reflexivity]. Qed.

Lemma pow2_Z (n : Z) : (0 <= n)%Z -> inject_Z (2 ^ n) == 2 ^ n.
Proof. intros H. now rewrite Zpower_Qpower. Qed.

Lemma ratio_between (A B P R D : Q) :
  0 < B -> 0 < D -> D * R == P -> P <= A -> A < 2 * P -> R <= B -> B < 2 * R ->
  (1 # 2) * D <= A / B /\ A / B < 2 * D.
Proof.
  intros HB HD Hd HA1 HA2 HB1 HB2. split.
  - apply Qle_shift_div_l; [exact HB|].
    assert (H : 0 <= D * (2 * R - B)) by (apply Qmult_le_0_compat; lra).
    setoid_replace ((1 # 2) * D * B) with (D * R - (1 # 2) * (D * (2 * R - B))) by ring.
    rewrite Hd. set (X := D * (2 * R - B)) in *. clearbody X. lra.
  - apply Qlt_shift_div_r; [exact HB|].
    assert (H : 0 <= D * (B - R)) by (apply Qmult_le_0_compat; lra).
    setoid_replace (2 * D * B) with (2 * (D * (B - R)) + 2 * (D * R)) by ring.
    rewrite Hd. set (X := D * (B - R)) in *. clearbody X. lra.
Qed.

Lemma ilog2_spec (q : Q) : 0 < q -> 2 ^ ilog2 q <= q /\ q < 2 ^ (ilog2 q + 1).
Proof.
  intros Hq. destruct q as [a b]. unfold ilog2. cbn [Qnum Qden].
  assert (Ha : (0 < a)%Z) by (unfold Qlt in Hq; simpl in Hq; lia).
  destruct (Z.log2_spec a Ha) as [Ha1 Ha2].
  destruct (Z.log2_spec (Zpos b) eq_refl) as [Hb1 Hb2].
  pose proof (Z.log2_nonneg a) as Hla. pose proof (Z.log2_nonneg (Zpos b)) as Hlb.
  set (la := Z.log2 a) in *. set (lb := Z.log2 (Zpos b)) in *.
  assert (Hq' : a # b == inject_Z a / inject_Z (Zpos b)) by apply Qmake_Qdiv.
  assert (HB : 0 < inject_Z (Zpos b)) by reflexivity.
  assert (HA1 : 2 ^ la <= inject_Z a) by (rewrite <- pow2_Z by lia; now rewrite <- Zle_Qle).
  assert (HA2 : inject_Z a < 2 * 2 ^ la).
  { rewrite <- pow2_succ, <- pow2_Z by lia. rewrite <- Zlt_Qlt. exact Ha2. }
  assert (HB1 : 2 ^ lb <= inject_Z (Zpos b)) by (rewrite <- pow2_Z by lia; now rewrite <- Zle_Qle).
  assert (HB2 : inject_Z (Zpos b) < 2 * 2 ^ lb).
  { rewrite <- pow2_succ, <- pow2_Z by lia. rewrite <- Zlt_Qlt. exact Hb2. }
  assert (Hd : 2 ^ (la - lb) * 2 ^ lb == 2 ^ la).
  { rewrite <- pow2_add. apply Qpower_comp; [reflexivity | lia]. }
  destruct (ratio_between _ _ _ _ _ HB (pow2_pos (la - lb)) Hd HA1 HA2 HB1 HB2) as [Hlow Hup].
  rewrite <- Hq' in Hlow, Hup.
  destruct (Qle_bool (2 ^ (la - lb)) (a # b)) eqn:E.
  - apply Qle_bool_iff in E. split; [exact E|]. now rewrite pow2_succ.
  - split.
    + rewrite pow2_pred. unfold Qdiv. rewrite Qmult_comm. exact Hlow.
    + replace (la - lb - 1 + 1)%Z with (la - lb)%Z by lia.
      apply Qnot_le_lt. intros H1. apply Qle_bool_iff in H1. congruence.
Qed.

Lemma ilog2_unique (q : Q) (l : Z) : 2 ^ l <= q -> q < 2 ^ (l + 1) -> ilog2 q = l.
Proof.
  intros H1 H2.
  assert (Hq : 0 < q) by (pose proof (pow2_pos l); lra).
  destruct (ilog2_spec q Hq) as [H3 H4].
  assert (ilog2 q < l + 1)%Z by (apply pow2_lt_inv; lra).
  assert (l < ilog2 q + 1)%Z by (apply pow2_lt_inv; lra).
  lia.
Qed.

Lemma ilog2_mono (q1 q2 : Q) : 0 < q1 -> q1 <= q2 -> (ilog2 q1 <= ilog2 q2)%Z.
Proof.
  intros H1 H2.
  destruct (ilog2_spec q1 H1) as [H3 _].
  destruct (ilog2_spec q2) as [_ H4]; [lra|].
  assert (ilog2 q1 < ilog2 q2 + 1)%Z by (apply pow2_lt_inv; lra).
  lia.
Qed.

(** Rounding to the nearest integer. *)

Lemma rhe_cases (r : Q) :
  (round_half_even r = Qfloor r /\ r - inject_Z (Qfloor r) <= 1 # 2)
  \/ (round_half_even r = (Qfloor r + 1)%Z /\ 1 # 2 <= r - inject_Z (Qfloor r)).
Proof.
  unfold round_half_even.
  destruct (Qcompare_spec (r - inject_Z (Qfloor r)) (1 # 2)) as [E | E | E].
  - destruct (Z.even (Qfloor r)); [left | right]; split; try reflexivity; lra.
  - left. split; [reflexivity | lra].
  - right. split; [reflexivity | lra].
Qed.

Lemma floor_bounds (r : Q) : inject_Z (Qfloor r) <= r /\ r < inject_Z (Qfloor r) + 1.
Proof.
  split; [apply Qfloor_le|].
  pose proof (Qlt_floor r) as H. rewrite inject_Z_plus in H. exact H.
Qed.

Lemma rhe_error (r : Q) :
  r - (1 # 2) <= inject_Z (round_half_even r) <= r + (1 # 2).
Proof.
  destruct (floor_bounds r) as [H1 H2].
  destruct (rhe_cases r) as [[-> H] | [-> H]];
    [|rewrite inject_Z_plus; change (inject_Z 1) with 1]; lra.
Qed.

Lemma rhe_Z (n : Z) : round_half_even (inject_Z n) = n.
Proof.
  unfold round_half_even. rewrite Qfloor_Z.
  replace (inject_Z n - inject_Z n ?= 1 # 2) with Lt; [reflexivity|].
  symmetry. apply Qlt_alt.
  setoid_replace (inject_Z n - inject_Z n) with 0 by ring. reflexivity.
Qed.

Lemma rhe_comp (r1 r2 : Q) : r1 == r2 -> round_half_even r1 = round_half_even r2.
Proof.
  intros H. unfold round_half_even.
  assert (Hf : Qfloor r1 = Qfloor r2) by now rewrite H.
  rewrite Hf. now rewrite H.
Qed.

Lemma rhe_mono (r1 r2 : Q) : r1 <= r2 -> (round_half_even r1 <= round_half_even r2)%Z.
Proof.
  intros H. pose proof (Qfloor_resp_le _ _ H) as Hf.
  destruct (Z.eq_dec (Qfloor r1) (Qfloor r2)) as [Heq | Hne].
  - unfold round_half_even. rewrite Heq.
    destruct (Qcompare_spec (r1 - inject_Z (Qfloor r2)) (1 # 2)) as [E1 | E1 | E1];
      destruct (Qcompare_spec (r2 - inject_Z (Qfloor r2)) (1 # 2)) as [E2 | E2 | E2];
      try destruct (Z.even (Qfloor r2)); try lia; exfalso; lra.
  - destruct (rhe_cases r1) as [[-> _] | [-> _]], (rhe_cases r2) as [[-> _] | [-> _]]; lia.
Qed.

Lemma rhe_le_Z (r : Q) (n : Z) : r <= inject_Z n -> (round_half_even r <= n)%Z.
Proof. intros H. rewrite <- (rhe_Z n). now apply rhe_mono. Qed.

Lemma rhe_ge_Z (r : Q) (n : Z) : inject_Z n <= r -> (n <= round_half_even r)%Z.
Proof. intros H. rewrite <- (rhe_Z n). now apply rhe_mono. Qed.

(** The number a positive [q] is rounded to: a multiple of the last bit,
    monotone in [q], within half a last bit of [q]. *)

Lemma round_positive_value (q : Q) :
  round_positive q = if Qle_bool (2 ^ 1024) (rp_value q) then PInf else Fin (rp_value q).
Proof. reflexivity. Qed.

Lemma ulp_exponent_mono (q1 q2 : Q) :
  0 < q1 -> q1 <= q2 -> (ulp_exponent q1 <= ulp_exponent q2)%Z.
Proof.
  intros H1 H2. unfold ulp_exponent. pose proof (ilog2_mono q1 q2 H1 H2). lia.
Qed.

Lemma div_pow2 (q : Q) (e : Z) : q / 2 ^ e * 2 ^ e == q.
Proof. field. pose proof (pow2_pos e). lra. Qed.

Lemma scaled_lt (q : Q) : 0 < q -> q / 2 ^ ulp_exponent q < inject_Z (2 ^ 53).
Proof.
  intros Hq. destruct (ilog2_spec q Hq) as [_ H].
  apply Qlt_shift_div_r; [apply pow2_pos|].
  rewrite pow2_Z by lia. rewrite <- pow2_add.
  apply Qlt_le_trans with (1 := H). apply pow2_le. unfold ulp_exponent. lia.
Qed.

Lemma scaled_ge (q : Q) :
  0 < q -> (-1074 < ulp_exponent q)%Z -> inject_Z (2 ^ 52) <= q / 2 ^ ulp_exponent q.
Proof.
  intros Hq He. destruct (ilog2_spec q Hq) as [H _].
  apply Qle_shift_div_l; [apply pow2_pos|].
  rewrite pow2_Z by lia. rewrite <- pow2_add.
  apply Qle_trans with (2 := H). apply pow2_le. unfold ulp_exponent in *. lia.
Qed.

Lemma scaled_pos (q : Q) : 0 < q -> 0 < q / 2 ^ ulp_exponent q.
Proof. intros Hq. apply Qlt_shift_div_l; [apply pow2_pos | lra]. Qed.

Lemma rp_value_nonneg (q : Q) : 0 < q -> 0 <= rp_value q.
Proof.
  intros Hq. unfold rp_value. apply Qmult_le_0_compat; [|apply Qlt_le_weak, pow2_pos].
  change 0 with (inject_Z 0). rewrite <- Zle_Qle. apply rhe_ge_Z.
  apply Qlt_le_weak. exact (scaled_pos q Hq).
Qed.

Lemma rp_value_le_top (q : Q) : 0 < q -> rp_value q <= 2 ^ (ulp_exponent q + 53).
Proof.
  intros Hq. unfold rp_value. rewrite pow2_add, (Qmult_comm (2 ^ ulp_exponent q)).
  apply Qmult_le_compat_r; [|apply Qlt_le_weak, pow2_pos].
  rewrite <- (pow2_Z 53) by lia. rewrite <- Zle_Qle. apply rhe_le_Z.
  apply Qlt_le_weak, scaled_lt, Hq.
Qed.

Lemma rp_value_ge_bottom (q : Q) :
  0 < q -> (-1074 < ulp_exponent q)%Z -> 2 ^ (ulp_exponent q + 52) <= rp_value q.
Proof.
  intros Hq He. unfold rp_value. rewrite pow2_add, (Qmult_comm (2 ^ ulp_exponent q)).
  apply Qmult_le_compat_r; [|apply Qlt_le_weak, pow2_pos].
  rewrite <- (pow2_Z 52) by lia. rewrite <- Zle_Qle. apply rhe_ge_Z.
  now apply scaled_ge.
Qed.

Lemma rp_value_mono (q1 q2 : Q) : 0 < q1 -> q1 <= q2 -> rp_value q1 <= rp_value q2.
Proof.
  intros H1 H2. assert (Hq2 : 0 < q2) by lra.
  pose proof (ulp_exponent_mono q1 q2 H1 H2) as He.
  destruct (Z.eq_dec (ulp_exponent q1) (ulp_exponent q2)) as [Heq | Hne].
  - unfold rp_value. rewrite Heq.
    apply Qmult_le_compat_r; [|apply Qlt_le_weak, pow2_pos].
    rewrite <- Zle_Qle. apply rhe_mono.
    apply Qmult_le_compat_r; [exact H2|].
    apply Qlt_le_weak, Qinv_lt_0_compat, pow2_pos.
  - apply Qle_trans with (1 := rp_value_le_top q1 H1).
    apply Qle_trans with (2 := rp_value_ge_bottom q2 Hq2 ltac:(unfold ulp_exponent in *; lia)).
    apply pow2_le. lia.
Qed.

Lemma rp_value_error (q : Q) :
  0 < q ->
  q - (1 # 2) * 2 ^ ulp_exponent q <= rp_value q <= q + (1 # 2) * 2 ^ ulp_exponent q.
Proof.
  intros Hq. unfold rp_value.
  pose proof (rhe_error (q / 2 ^ ulp_exponent q)) as [H1 H2].
  pose proof (pow2_pos (ulp_exponent q)) as Hp.
  pose proof (div_pow2 q (ulp_exponent q)) as Hd.
  set (r := q / 2 ^ ulp_exponent q) in *. set (p := 2 ^ ulp_exponent q) in *.
  set (m := inject_Z (round_half_even r)) in *. clearbody r p m.
  assert (Ha : (r - (1 # 2)) * p <= m * p) by (apply Qmult_le_compat_r; lra).
  assert (Hb : m * p <= (r + (1 # 2)) * p) by (apply Qmult_le_compat_r; lra).
  assert (E1 : (r - (1 # 2)) * p == r * p - (1 # 2) * p) by ring.
  assert (E2 : (r + (1 # 2)) * p == r * p + (1 # 2) * p) by ring.
  rewrite E1 in Ha. rewrite E2 in Hb. rewrite Hd in Ha, Hb. split; assumption.
Qed.

(** In the range of the normal numbers the relative error is at most
    2^-53. *)
Lemma rp_value_relative (q : Q) :
  2 ^ (-1022) <= q ->
  q * (1 - 2 ^ (-53)) <= rp_value q <= q * (1 + 2 ^ (-53)).
Proof.
  intros Hq. assert (Hpos : 0 < q) by (pose proof (pow2_pos (-1022)); lra).
  destruct (rp_value_error q Hpos) as [H1 H2].
  destruct (ilog2_spec q Hpos) as [H3 _].
  assert (Hl : (-1022 <= ilog2 q)%Z).
  { destruct (ilog2_spec q Hpos) as [_ H4].
    assert (-1022 < ilog2 q + 1)%Z by (apply pow2_lt_inv; lra). lia. }
  assert (He : ulp_exponent q = (ilog2 q - 52)%Z) by (unfold ulp_exponent; lia).
  assert (Hu : (1 # 2) * 2 ^ ulp_exponent q <= q * 2 ^ (-53)).
  { rewrite He.
    setoid_replace ((1 # 2) * 2 ^ (ilog2 q - 52)) with (2 ^ ilog2 q * 2 ^ (-53)).
    - apply Qmult_le_compat_r; [exact H3 | apply Qlt_le_weak, pow2_pos].
    - rewrite <- pow2_add. replace (ilog2 q + -53)%Z with (ilog2 q - 52 - 1)%Z by lia.
      rewrite pow2_pred. field. }
  set (w := (1 # 2) * 2 ^ ulp_exponent q) in *. set (t := q * 2 ^ (-53)) in *.
  assert (E1 : q * (1 - 2 ^ (-53)) == q - t) by (unfold t; ring).
  assert (E2 : q * (1 + 2 ^ (-53)) == q + t) by (unfold t; ring).
  rewrite E1, E2. clearbody w t. clear - H1 H2 Hu. split; lra.
Qed.

(** A number with few enough bits is not changed. *)
Lemma rp_value_on_grid (q : Q) (n g : Z) :
  0 < q -> q == inject_Z n * 2 ^ g -> (ulp_exponent q <= g)%Z -> rp_value q == q.
Proof.
  intros Hq Hn Hg. unfold rp_value.
  set (e := ulp_exponent q) in *. clearbody e.
  assert (Hr : q / 2 ^ e == inject_Z (n * 2 ^ (g - e))).
  { rewrite inject_Z_mult, pow2_Z by lia. rewrite Qpower_minus by discriminate.
    rewrite Hn. field. pose proof (pow2_pos e). lra. }
  rewrite (rhe_comp _ _ Hr), rhe_Z, <- Hr. apply div_pow2.
Qed.

Lemma round_positive_mono (q1 q2 : Q) :
  0 < q1 -> q1 <= q2 -> sort_le (round_positive q1) (round_positive q2).
Proof.
  intros H1 H2. pose proof (rp_value_mono q1 q2 H1 H2) as Hv.
  rewrite !round_positive_value. unfold sort_le.
  destruct (Qle_bool (2 ^ 1024) (rp_value q2)) eqn:E2;
    destruct (Qle_bool (2 ^ 1024) (rp_value q1)) eqn:E1; simpl; try reflexivity.
  - apply Qle_bool_iff in E1.
    assert (Hc : 2 ^ 1024 <= rp_value q2) by (eapply Qle_trans; eassumption).
    apply Qle_bool_iff in Hc. congruence.
  - now apply Qle_bool_iff.
Qed.

Lemma round_positive_cases (q : Q) :
  0 < q -> round_positive q = PInf \/ exists v, round_positive q = Fin v /\ v == rp_value q /\ 0 <= v.
Proof.
  intros Hq. rewrite round_positive_value.
  destruct (Qle_bool (2 ^ 1024) (rp_value q)); [now left | right].
  exists (rp_value q). split; [reflexivity|]. split; [reflexivity | now apply rp_value_nonneg].
Qed.

Lemma round_positive_small (q : Q) :
  0 < q -> rp_value q < 2 ^ 1024 -> round_positive q = Fin (rp_value q).
Proof.
  intros Hq Hv. rewrite round_positive_value.
  destruct (Qle_bool (2 ^ 1024) (rp_value q)) eqn:E; [|reflexivity].
  apply Qle_bool_iff in E. exfalso. apply (Qlt_not_le _ _ Hv E).
Qed.

(** [round64] by the sign of its argument. *)

Lemma round64_pos (q : Q) : 0 < q -> round64 q = round_positive q.
Proof.
  intros H. unfold round64.
  destruct (Qcompare_spec q 0); [exfalso; lra | exfalso; lra | reflexivity].
Qed.

Lemma round64_zero (q : Q) : q == 0 -> round64 q = Fin 0.
Proof.
  intros H. unfold round64.
  destruct (Qcompare_spec q 0); [reflexivity | exfalso; lra | exfalso; lra].
Qed.

Lemma round64_neg (q : Q) : q < 0 -> round64 q = f64_opp (round_positive (- q)).
Proof.
  intros H. unfold round64.
  destruct (Qcompare_spec q 0); [exfalso; lra | reflexivity | exfalso; lra].
Qed.

Lemma sort_le_Fin (x y : Q) : sort_le (Fin x) (Fin y) <-> x <= y.
Proof. unfold sort_le. simpl. apply Qle_bool_iff. Qed.

Lemma round_positive_nonneg (q : Q) : 0 < q -> sort_le (Fin 0) (round_positive q).
Proof.
  intros H. destruct (round_positive_cases q H) as [-> | (v & -> & _ & Hv)];
    [reflexivity | now apply sort_le_Fin].
Qed.

Lemma opp_antitone (a b : f64) :
  a <> NaN -> b <> NaN -> sort_le a b -> sort_le (f64_opp b) (f64_opp a).
Proof.
  unfold sort_le. destruct a, b; simpl; intros Ha Hb H; try congruence.
  apply Qle_bool_iff. apply Qle_bool_iff in H. lra.
Qed.

Lemma round_positive_not_nan (q : Q) : round_positive q <> NaN.
Proof. rewrite round_positive_value. destruct (Qle_bool _ _); discriminate. Qed.

Lemma opp_nonpos (a : f64) : sort_le (Fin 0) a -> a <> NaN -> sort_le (f64_opp a) (Fin 0).
Proof.
  unfold sort_le. destruct a; simpl; intros H Hn; try congruence.
  apply Qle_bool_iff. apply Qle_bool_iff in H. lra.
Qed.

(** Rounding is monotone. *)
Lemma round64_mono (q1 q2 : Q) : q1 <= q2 -> sort_le (round64 q1) (round64 q2).
Proof.
  intros H.
  destruct (Qcompare_spec q1 0) as [E1 | E1 | E1];
    destruct (Qcompare_spec q2 0) as [E2 | E2 | E2]; try (exfalso; lra).
  - rewrite !round64_zero by assumption. reflexivity.
  - rewrite (round64_zero q1 E1), (round64_pos q2 E2). now apply round_positive_nonneg.
  - rewrite (round64_neg q1 E1), (round64_zero q2 E2).
    apply opp_nonpos; [apply round_positive_nonneg; lra | apply round_positive_not_nan].
  - rewrite (round64_neg q1 E1), (round64_neg q2 E2).
    apply opp_antitone; try apply round_positive_not_nan.
    apply round_positive_mono; lra.
  - rewrite (round64_neg q1 E1), (round64_pos q2 E2).
    apply sort_le_trans with (Fin 0).
    + apply opp_nonpos; [apply round_positive_nonneg; lra | apply round_positive_not_nan].
    + now apply round_positive_nonneg.
  - rewrite (round64_pos q1 E1), (round64_pos q2 E2). now apply round_positive_mono.
Qed.

Lemma round64_not_nan (q : Q) : round64 q <> NaN.
Proof.
  unfold round64. destruct (q ?= 0); try discriminate; try apply round_positive_not_nan.
  pose proof (round_positive_not_nan (- q)). destruct (round_positive (- q)); simpl; congruence.
Qed.

(** The numbers [rand] draws are in [0, 1), at least [2^-53] when
    positive, and are not changed by rounding. *)

Lemma unit_float_range (x : Q) : unit_float x -> 0 <= x /\ x < 1.
Proof.
  intros (k & [Hk1 Hk2] & ->). pose proof (pow2_pos (-53)) as Hp.
  rewrite Zle_Qle in Hk1. rewrite Zlt_Qlt in Hk2. rewrite pow2_Z in Hk2 by lia.
  change (inject_Z 0) with 0 in Hk1. split.
  - apply Qmult_le_0_compat; lra.
  - apply Qlt_le_trans with (2 ^ 53 * 2 ^ (-53)); [|rewrite <- pow2_add; simpl; apply Qle_refl].
    apply Qmult_lt_compat_r; assumption.
Qed.

Lemma unit_float_positive (x : Q) : unit_float x -> 0 < x -> 2 ^ (-53) <= x.
Proof.
  intros (k & [Hk1 Hk2] & Hx) Hpos. pose proof (pow2_pos (-53)) as Hp.
  assert (Hk : (1 <= k)%Z).
  { destruct (Z.le_gt_cases 1 k) as [H | H]; [exact H|]. exfalso.
    assert (k = 0%Z) by lia. subst k. rewrite Hx in Hpos. simpl in Hpos.
    apply (Qlt_irrefl 0). eapply Qlt_le_trans; [exact Hpos|]. rewrite Qmult_0_l. apply Qle_refl. }
  rewrite Hx. rewrite Zle_Qle in Hk. change (inject_Z 1) with 1 in Hk.
  rewrite <- (Qmult_1_l (2 ^ (-53))) at 1.
  apply Qmult_le_compat_r; [exact Hk | lra].
Qed.

Lemma ilog2_below (q : Q) (l : Z) : 0 < q -> q < 2 ^ l -> (ilog2 q < l)%Z.
Proof.
  intros Hq H. destruct (ilog2_spec q Hq) as [H1 _]. apply pow2_lt_inv. lra.
Qed.

Lemma unit_float_fixed (x : Q) : unit_float x -> 0 < x -> rp_value x == x.
Proof.
  intros Hx Hpos. destruct (unit_float_range x Hx) as [_ Hlt].
  destruct Hx as (k & _ & Hx).
  apply (rp_value_on_grid x k (-53) Hpos Hx).
  pose proof (ilog2_below x 0 Hpos Hlt). unfold ulp_exponent. lia.
Qed.

(** The order in which [np_sum] adds ten terms: at most five additions
    above any of them. *)

Lemma np_sum_10 (x0 x1 x2 x3 x4 x5 x6 x7 x8 x9 : f64) :
  np_sum [x0; x1; x2; x3; x4; x5; x6; x7; x8; x9]
  = f64_add (f64_add (f64_add (f64_add (f64_add x0 x1) (f64_add x2 x3))
                              (f64_add (f64_add x4 x5) (f64_add x6 x7)))
                     x8)
            x9.
Proof. reflexivity. Qed.

Lemma rel_lo_hi : 0 < rel_lo /\ rel_lo <= 1 /\ 1 <= rel_hi.
Proof. unfold rel_lo, rel_hi. repeat split; vm_compute; congruence. Qed.

Lemma qpow_pos (b : Q) (k : nat) : 0 < b -> 0 < qpow b k.
Proof.
  intros Hb. induction k; simpl; [reflexivity|].
  apply Qmult_lt_0_compat; assumption.
Qed.

Lemma qpow_lo_le1 (k : nat) : qpow rel_lo k <= 1.
Proof.
  destruct rel_lo_hi as (H0 & H1 & _). induction k; simpl; [apply Qle_refl|].
  pose proof (qpow_pos rel_lo k H0) as Hp.
  apply Qle_trans with (1 * qpow rel_lo k); [apply Qmult_le_compat_r; lra | lra].
Qed.

Lemma qpow_hi_ge1 (k : nat) : 1 <= qpow rel_hi k.
Proof.
  destruct rel_lo_hi as (_ & _ & H1). induction k; simpl; [apply Qle_refl|].
  apply Qle_trans with (1 * qpow rel_hi k); [lra | apply Qmult_le_compat_r; lra].
Qed.

Lemma qpow_lo_anti (j k : nat) : (j <= k)%nat -> qpow rel_lo k <= qpow rel_lo j.
Proof.
  destruct rel_lo_hi as (H0 & H1 & _).
  induction 1; [apply Qle_refl|]. simpl.
  pose proof (qpow_pos rel_lo m H0) as Hp.
  apply Qle_trans with (2 := IHle).
  apply Qle_trans with (1 * qpow rel_lo m); [apply Qmult_le_compat_r; lra | lra].
Qed.

Lemma qpow_hi_mono (j k : nat) : (j <= k)%nat -> qpow rel_hi j <= qpow rel_hi k.
Proof.
  destruct rel_lo_hi as (H0 & _ & H1).
  induction 1; [apply Qle_refl|]. simpl.
  assert (Hp : 0 < qpow rel_hi m) by (apply qpow_pos; unfold rel_hi; vm_compute; congruence).
  apply Qle_trans with (1 := IHle).
  apply Qle_trans with (1 * qpow rel_hi m); [lra | apply Qmult_le_compat_r; lra].
Qed.

Lemma qpow_small (k : nat) : (k <= 6)%nat -> 1 # 2 <= qpow rel_lo k /\ qpow rel_hi k <= 2.
Proof.
  intros Hk. split.
  - apply Qle_trans with (2 := qpow_lo_anti k 6 Hk). vm_compute. congruence.
  - apply Qle_trans with (1 := qpow_hi_mono k 6 Hk). vm_compute. congruence.
Qed.

Lemma mul_le_l (x a b : Q) : 0 <= x -> a <= b -> x * a <= x * b.
Proof.
  intros Hx H. rewrite (Qmult_comm x a), (Qmult_comm x b).
  now apply Qmult_le_compat_r.
Qed.

Lemma mul_le_r (x a b : Q) : 0 <= x -> a <= b -> a * x <= b * x.
Proof. intros Hx H. now apply Qmult_le_compat_r. Qed.

Lemma Qsum_app (l1 l2 : list Q) : Qsum (l1 ++ l2) == Qsum l1 + Qsum l2.
Proof. induction l1 as [|x l1 IH]; simpl; [ring | rewrite IH; ring]. Qed.

(** The exact sum of multiples of 2^-53 is one, and is at most the number
    of terms. *)
Lemma unit_sum_grid (L : list Q) :
  Forall unit_float L ->
  exists n : Z, (0 <= n)%Z /\ Qsum L == inject_Z n * 2 ^ (-53)
                /\ Qsum L <= inject_Z (Z.of_nat (List.length L)).
Proof.
  induction 1 as [|x L Hx _ (n & Hn & Hs & Hl)].
  - exists 0%Z. split; [lia|]. split; [reflexivity | apply Qle_refl].
  - destruct (unit_float_range x Hx) as [_ Hx1].
    destruct Hx as (k & [Hk _] & Hx).
    exists (k + n)%Z. split; [lia|]. split.
    + change (Qsum (x :: L)) with (x + Qsum L). rewrite Hs, Hx, inject_Z_plus. ring.
    + change (Qsum (x :: L)) with (x + Qsum L).
      change (List.length (x :: L)) with (S (List.length L)).
      rewrite Nat2Z.inj_succ. unfold Z.succ. rewrite inject_Z_plus.
      change (inject_Z 1) with 1. lra.
Qed.

Lemma unit_sum_cases (L : list Q) :
  Forall unit_float L -> Qsum L == 0 \/ 2 ^ (-53) <= Qsum L.
Proof.
  intros H. destruct (unit_sum_grid L H) as (n & Hn & Hs & _).
  destruct (Z.eq_dec n 0) as [-> | Hne].
  - left. rewrite Hs. ring.
  - right. rewrite Hs. assert (H1 : (1 <= n)%Z) by lia.
    rewrite Zle_Qle in H1. change (inject_Z 1) with 1 in H1.
    pose proof (pow2_pos (-53)).
    rewrite <- (Qmult_1_l (2 ^ (-53))) at 1. apply Qmult_le_compat_r; lra.
Qed.

Lemma unit_sum_nonneg (L : list Q) : Forall unit_float L -> 0 <= Qsum L.
Proof.
  intros H. destruct (unit_sum_cases L H) as [-> | H1]; [apply Qle_refl|].
  pose proof (pow2_pos (-53)). lra.
Qed.

Lemma partial_sum_leaf (x : Q) (k : nat) : unit_float x -> partial_sum [x] k (Fin x).
Proof.
  intros Hx. destruct (unit_float_range x Hx) as [H0 _].
  exists x. split; [reflexivity|]. split; [repeat constructor; apply Qle_refl|].
  change (Qsum [x]) with (x + 0). pose proof (qpow_lo_le1 k). pose proof (qpow_hi_ge1 k).
  setoid_replace (x + 0) with x by ring. split.
  - apply Qle_trans with (x * 1); [now apply mul_le_l | lra].
  - apply Qle_trans with (x * 1); [lra | now apply mul_le_l].
Qed.

(** One rounding in the normal range. *)
Lemma round64_normal (q : Q) :
  2 ^ (-1022) <= q -> q <= 2 ^ 1000 ->
  round64 q = Fin (rp_value q) /\ q * rel_lo <= rp_value q /\ rp_value q <= q * rel_hi.
Proof.
  intros H1 H2. assert (Hq : 0 < q) by (pose proof (pow2_pos (-1022)); lra).
  destruct (rp_value_relative q H1) as [Ha Hb]. fold rel_lo in Ha. fold rel_hi in Hb.
  split; [|split; assumption].
  rewrite (round64_pos q Hq). apply round_positive_small; [exact Hq|].
  apply Qle_lt_trans with (1 := Hb).
  apply Qle_lt_trans with (2 ^ 1000 * rel_hi); [apply mul_le_r; [vm_compute; congruence | exact H2]|].
  vm_compute. reflexivity.
Qed.

Lemma partial_sum_nonneg (L : list Q) (k : nat) (q : Q) :
  Forall unit_float L -> Qsum L * qpow rel_lo k <= q -> 0 <= q.
Proof.
  intros HL H. apply Qle_trans with (2 := H).
  apply Qmult_le_0_compat; [now apply unit_sum_nonneg|].
  apply Qlt_le_weak, qpow_pos. apply rel_lo_hi.
Qed.

(** One more addition: the sum of two partial sums is a partial sum. *)
Lemma partial_sum_add (L1 L2 : list Q) (k : nat) (a b : f64) :
  Forall unit_float L1 -> Forall unit_float L2 ->
  (k < 6)%nat -> (List.length (L1 ++ L2) <= 16)%nat ->
  partial_sum L1 k a -> partial_sum L2 k b -> partial_sum (L1 ++ L2) (S k) (f64_add a b).
Proof.
  intros HL1 HL2 Hk Hlen (q1 & -> & Hd1 & Hlo1 & Hhi1) (q2 & -> & Hd2 & Hlo2 & Hhi2).
  assert (HL : Forall unit_float (L1 ++ L2)) by (apply Forall_app; now split).
  pose proof (unit_sum_nonneg L1 HL1) as HS1. pose proof (unit_sum_nonneg L2 HL2) as HS2.
  pose proof (partial_sum_nonneg L1 k q1 HL1 Hlo1) as Hq1.
  pose proof (partial_sum_nonneg L2 k q2 HL2 Hlo2) as Hq2.
  destruct (qpow_small k ltac:(lia)) as [HP HH].
  destruct rel_lo_hi as (Hlo0 & Hlo1' & Hhi1').
  pose proof (Qsum_app L1 L2) as Happ.
  assert (Hlo : Qsum (L1 ++ L2) * qpow rel_lo k <= q1 + q2).
  { rewrite Happ. setoid_replace ((Qsum L1 + Qsum L2) * qpow rel_lo k)
      with (Qsum L1 * qpow rel_lo k + Qsum L2 * qpow rel_lo k) by ring. lra. }
  assert (Hhi : q1 + q2 <= Qsum (L1 ++ L2) * qpow rel_hi k).
  { rewrite Happ. setoid_replace ((Qsum L1 + Qsum L2) * qpow rel_hi k)
      with (Qsum L1 * qpow rel_hi k + Qsum L2 * qpow rel_hi k) by ring. lra. }
  cbn [f64_add].
  destruct (unit_sum_cases (L1 ++ L2) HL) as [Hz | Hpos].
  - assert (Hq : q1 + q2 == 0).
    { rewrite Hz in Hhi. rewrite Qmult_0_l in Hhi. lra. }
    rewrite (round64_zero _ Hq). exists 0. split; [reflexivity|]. split; [|split].
    + apply Forall_app. split; (eapply Forall_impl; [|eassumption]); simpl; intros; lra.
    + rewrite Hz, Qmult_0_l. apply Qle_refl.
    + rewrite Hz, Qmult_0_l. apply Qle_refl.
  - destruct (unit_sum_grid (L1 ++ L2) HL) as (_ & _ & _ & Hlen').
    assert (Hlen16 : Qsum (L1 ++ L2) <= 16).
    { apply Qle_trans with (1 := Hlen'). change 16 with (inject_Z 16).
      rewrite <- Zle_Qle. lia. }
    assert (Hbig : 2 ^ (-1022) <= q1 + q2).
    { apply Qle_trans with (2 := Hlo).
      apply Qle_trans with (2 ^ (-53) * (1 # 2)); [vm_compute; congruence|].
      apply Qle_trans with (Qsum (L1 ++ L2) * (1 # 2)).
      - apply mul_le_r; [vm_compute; congruence | exact Hpos].
      - apply mul_le_l; [now apply unit_sum_nonneg | exact HP]. }
    assert (Hsmall : q1 + q2 <= 2 ^ 1000).
    { apply Qle_trans with (1 := Hhi).
      apply Qle_trans with (16 * 2); [|vm_compute; congruence].
      apply Qle_trans with (16 * qpow rel_hi k).
      - apply mul_le_r; [pose proof (qpow_hi_ge1 k); lra | exact Hlen16].
      - apply mul_le_l; [vm_compute; congruence | exact HH]. }
    destruct (round64_normal _ Hbig Hsmall) as (-> & Hv1 & Hv2).
    exists (rp_value (q1 + q2)). split; [reflexivity|].
    assert (Hqpos : 0 < q1 + q2) by (pose proof (pow2_pos (-1022)); lra).
    split; [|split].
    + assert (Hdom : forall x, unit_float x -> x <= q1 + q2 -> x <= rp_value (q1 + q2)).
      { intros x Hx Hle. destruct (unit_float_range x Hx) as [Hx0 _].
        destruct (Qlt_le_dec 0 x) as [Hxpos | Hxneg].
        - rewrite <- (unit_float_fixed x Hx Hxpos). now apply rp_value_mono.
        - apply Qle_trans with 0; [exact Hxneg | now apply rp_value_nonneg]. }
      apply Forall_app. split; apply Forall_forall; intros x Hin.
      * rewrite Forall_forall in Hd1, HL1. apply Hdom; [now apply HL1|].
        specialize (Hd1 x Hin). simpl in Hd1. lra.
      * rewrite Forall_forall in Hd2, HL2. apply Hdom; [now apply HL2|].
        specialize (Hd2 x Hin). simpl in Hd2. lra.
    + apply Qle_trans with (2 := Hv1). cbn [qpow].
      setoid_replace (Qsum (L1 ++ L2) * (rel_lo * qpow rel_lo k))
        with (Qsum (L1 ++ L2) * qpow rel_lo k * rel_lo) by ring.
      apply mul_le_r; [lra | exact Hlo].
    + apply Qle_trans with (1 := Hv2). cbn [qpow].
      setoid_replace (Qsum (L1 ++ L2) * (rel_hi * qpow rel_hi k))
        with (Qsum (L1 ++ L2) * qpow rel_hi k * rel_hi) by ring.
      apply mul_le_r; [lra | exact Hhi].
Qed.

(** The sum of ten draws. *)
Lemma np_sum_partial_sum (xs : list Q) :
  List.length xs = 10%nat -> Forall unit_float xs -> partial_sum xs 5 (np_sum (map Fin xs)).
Proof.
  intros Hlen Hxs.
  destruct xs as [|x0 [|x1 [|x2 [|x3 [|x4 [|x5 [|x6 [|x7 [|x8 [|x9 [|x10 l]]]]]]]]]]];
    try discriminate Hlen.
  cbn [map]. rewrite np_sum_10.
  repeat match goal with
         | H : Forall _ (_ :: _) |- _ => apply Forall_cons_iff in H; destruct H
         end.
  assert (Hleaf : forall x k, unit_float x -> partial_sum [x] k (Fin x)) by (intros; now apply partial_sum_leaf).
  assert (Hf : forall x, unit_float x -> Forall unit_float [x]) by (intros; now constructor).
  change [x0; x1; x2; x3; x4; x5; x6; x7; x8; x9]
    with ((((([x0] ++ [x1]) ++ ([x2] ++ [x3])) ++ (([x4] ++ [x5]) ++ ([x6] ++ [x7]))) ++ [x8]) ++ [x9])%list.
  repeat (apply partial_sum_add;
          [ repeat (apply Forall_app; split); auto
          | repeat (apply Forall_app; split); auto
          | lia | simpl; lia | | ]); auto.
Qed.

Lemma rp_value_one : rp_value 1 == 1.
Proof. vm_compute. reflexivity. Qed.

(** The quotient of a draw by a sum that is at least the draw. *)
Lemma div_unit (x q : Q) :
  unit_float x -> x <= q -> 0 < q -> q <= 32 ->
  exists c, f64_div (Fin x) (Fin q) = Fin c
            /\ 0 <= c /\ c <= 1
            /\ x / q * rel_lo <= c /\ c <= x / q * rel_hi.
Proof.
  intros Hx Hxq Hq Hq32. destruct (unit_float_range x Hx) as [Hx0 _].
  cbn [f64_div].
  destruct (Qeq_bool q 0) eqn:E; [apply Qeq_bool_iff in E; lra|].
  destruct (Qlt_le_dec 0 x) as [Hpos | Hneg].
  - pose proof (unit_float_positive x Hx Hpos) as Hx53.
    assert (Hr1 : x / q <= 1) by (apply Qle_shift_div_r; lra).
    assert (Hr0 : 2 ^ (-1022) <= x / q).
    { apply Qle_shift_div_l; [exact Hq|].
      apply Qle_trans with (2 := Hx53).
      apply Qle_trans with (2 ^ (-1022) * 32); [apply mul_le_l; [vm_compute; congruence | exact Hq32]|].
      vm_compute. congruence. }
    destruct (round64_normal (x / q) Hr0) as (-> & Hv1 & Hv2).
    { apply Qle_trans with (1 := Hr1). vm_compute. congruence. }
    exists (rp_value (x / q)). split; [reflexivity|].
    assert (Hrpos : 0 < x / q) by (pose proof (pow2_pos (-1022)); lra).
    split; [now apply rp_value_nonneg|]. split; [|split; assumption].
    rewrite <- rp_value_one. now apply rp_value_mono.
  - assert (Hz : x / q == 0).
    { assert (x == 0) by lra. rewrite H. unfold Qdiv. apply Qmult_0_l. }
    rewrite (round64_zero _ Hz). exists 0. split; [reflexivity|].
    rewrite Hz, !Qmult_0_l. repeat split; try apply Qle_refl. discriminate.
Qed.

Lemma Qsum_scaled_bounds (q : Q) (xs cs : list Q) (l h : Q) :
  Forall2 (fun x c => x / q * l <= c /\ c <= x / q * h) xs cs ->
  Qsum xs / q * l <= Qsum cs /\ Qsum cs <= Qsum xs / q * h.
Proof.
  induction 1 as [|x c xs cs [H1 H2] _ [IH1 IH2]].
  - unfold Qsum, Qdiv. simpl. rewrite !Qmult_0_l. split; apply Qle_refl.
  - change (Qsum (x :: xs)) with (x + Qsum xs). change (Qsum (c :: cs)) with (c + Qsum cs).
    setoid_replace ((x + Qsum xs) / q * l) with (x / q * l + Qsum xs / q * l)
      by (unfold Qdiv; ring).
    setoid_replace ((x + Qsum xs) / q * h) with (x / q * h + Qsum xs / q * h)
      by (unfold Qdiv; ring).
    split; lra.
Qed.

Lemma sum_constants :
  1 - 2 ^ (-50) <= rel_lo / qpow rel_hi 5 /\ rel_hi / qpow rel_lo 5 <= 1 + 2 ^ (-50).
Proof. split; vm_compute; congruence. Qed.

(** The ten confidences: each in [0, 1], and their exact sum within 2^-50
    of 1. *)
Lemma normalised_distribution (xs : list Q) :
  List.length xs = 10%nat -> Forall unit_float xs -> Exists (fun x => 0 < x) xs ->
  exists cs,
    map (fun x => f64_div x (np_sum (map Fin xs))) (map Fin xs) = map Fin cs
    /\ Forall (fun c => 0 <= c /\ c <= 1) cs
    /\ 1 - 2 ^ (-50) <= Qsum cs /\ Qsum cs <= 1 + 2 ^ (-50).
Proof.
  intros Hlen Hxs Hex.
  destruct (np_sum_partial_sum xs Hlen Hxs) as (q & -> & Hdom & Hlo & Hhi).
  pose proof (unit_sum_nonneg xs Hxs) as HS0.
  assert (HS : 0 < Qsum xs).
  { destruct (unit_sum_cases xs Hxs) as [Hz | Hp]; [|pose proof (pow2_pos (-53)); lra].
    exfalso. apply Exists_exists in Hex as (x & Hin & Hx).
    assert (Hle : forall l, Forall unit_float l -> In x l -> x <= Qsum l).
    { induction 1 as [|y l Hy Hl IH]; intros Hin'; [destruct Hin'|].
      change (Qsum (y :: l)) with (y + Qsum l).
      pose proof (unit_sum_nonneg l Hl). destruct (unit_float_range y Hy).
      destruct Hin' as [-> | Hin']; [lra | specialize (IH Hin'); lra]. }
    specialize (Hle xs Hxs Hin). lra. }
  destruct rel_lo_hi as (Hlo0 & Hlo1 & Hhi1).
  destruct (qpow_small 5 ltac:(lia)) as [HP HH].
  assert (Hq : 0 < q).
  { apply Qlt_le_trans with (2 := Hlo). apply Qmult_lt_0_compat; [exact HS|].
    now apply qpow_pos. }
  assert (Hq32 : q <= 32).
  { apply Qle_trans with (1 := Hhi).
    destruct (unit_sum_grid xs Hxs) as (_ & _ & _ & Hl). rewrite Hlen in Hl.
    apply Qle_trans with (10 * 2); [|vm_compute; congruence].
    apply Qle_trans with (10 * qpow rel_hi 5).
    - apply mul_le_r; [pose proof (qpow_hi_ge1 5); lra | exact Hl].
    - apply mul_le_l; [vm_compute; congruence | exact HH]. }
  assert (Hall : Forall (fun x => exists c, f64_div (Fin x) (Fin q) = Fin c
                                            /\ 0 <= c /\ c <= 1
                                            /\ x / q * rel_lo <= c /\ c <= x / q * rel_hi) xs).
  { rewrite Forall_forall in Hdom, Hxs. apply Forall_forall. intros x Hin.
    apply div_unit; auto. }
  assert (Hcs : exists cs, map (fun x => f64_div x (Fin q)) (map Fin xs) = map Fin cs
                           /\ Forall (fun c => 0 <= c /\ c <= 1) cs
                           /\ Forall2 (fun x c => x / q * rel_lo <= c /\ c <= x / q * rel_hi) xs cs).
  { clear - Hall. induction Hall as [|x xs (c & Hc & H0 & H1 & H2 & H3) _ (cs & Hm & Hu & Hf)].
    - exists []. split; [reflexivity|]. split; constructor.
    - exists (c :: cs). cbn [map]. rewrite Hc, Hm. split; [reflexivity|].
      split; constructor; auto. }
  destruct Hcs as (cs & Hm & Hu & Hf). exists cs. split; [exact Hm|]. split; [exact Hu|].
  destruct (Qsum_scaled_bounds q xs cs rel_lo rel_hi Hf) as [Hb1 Hb2].
  destruct sum_constants as [Hc1 Hc2].
  assert (HP5 : 0 < qpow rel_lo 5) by now apply qpow_pos.
  assert (HH5 : 0 < qpow rel_hi 5) by (apply qpow_pos; lra).
  assert (Hr1 : / qpow rel_hi 5 <= Qsum xs / q).
  { apply Qle_shift_div_l; [exact Hq|].
    apply Qle_shift_div_r in Hhi; [|exact HH5].
    unfold Qdiv in Hhi. rewrite Qmult_comm. exact Hhi. }
  assert (Hr2 : Qsum xs / q <= / qpow rel_lo 5).
  { apply Qle_shift_div_r; [exact Hq|].
    apply Qle_shift_div_l in Hlo; [|exact HP5].
    unfold Qdiv in Hlo. rewrite Qmult_comm. exact Hlo. }
  split.
  - apply Qle_trans with (1 := Hc1). apply Qle_trans with (2 := Hb1).
    unfold Qdiv at 1. rewrite (Qmult_comm rel_lo). apply mul_le_r; [lra | exact Hr1].
  - apply Qle_trans with (2 := Hc2). apply Qle_trans with (1 := Hb2).
    unfold Qdiv at 2. rewrite (Qmult_comm rel_hi). apply mul_le_r; [lra | exact Hr2].
Qed.

(** Equal dividends give quotients of which neither is below the other. *)
Lemma f64_div_tied (x y : Q) (s : f64) :
  x == y -> f64_ltb (f64_div (Fin x) s) (f64_div (Fin y) s) = false.
Proof.
  intros Hxy. destruct s as [q | | |]; cbn [f64_div]; try reflexivity.
  destruct (Qeq_bool q 0) eqn:E.
  - destruct (Qcompare_spec x 0), (Qcompare_spec y 0); try reflexivity; exfalso; lra.
  - assert (H : sort_le (round64 (y / q)) (round64 (x / q))).
    { apply round64_mono. rewrite Hxy. apply Qle_refl. }
    unfold sort_le in H. unfold f64_ltb.
    destruct (round64 (x / q)), (round64 (y / q)); try reflexivity; now rewrite H.
Qed.

Lemma f64_add_zero (a b : Q) : a == 0 -> b == 0 -> f64_add (Fin a) (Fin b) = Fin 0.
Proof.
  intros Ha Hb. cbn [f64_add]. apply round64_zero. rewrite Ha, Hb. reflexivity.
Qed.

(** With no positive draw the sum is zero and every quotient is [nan]. *)
Lemma np_sum_all_zero (xs : list Q) :
  List.length xs = 10%nat -> Forall (fun x => x == 0) xs -> np_sum (map Fin xs) = Fin 0.
Proof.
  intros Hlen Hall.
  destruct xs as [|x0 [|x1 [|x2 [|x3 [|x4 [|x5 [|x6 [|x7 [|x8 [|x9 [|x10 l]]]]]]]]]]];
    try discriminate Hlen.
  cbn [map]. rewrite np_sum_10.
  repeat match goal with
         | H : Forall _ (_ :: _) |- _ => apply Forall_cons_iff in H; destruct H
         end.
  repeat (rewrite f64_add_zero; [|first [assumption | reflexivity]..]).
  reflexivity.
Qed.

Lemma np_divide_all_zero (xs : list Q) :
  List.length xs = 10%nat -> Forall (fun x => x == 0) xs ->
  np_divide (map Fin xs) (np_sum (map Fin xs)) = map (fun _ => NaN) xs.
Proof.
  intros Hlen Hall. rewrite (np_sum_all_zero xs Hlen Hall).
  unfold np_divide. rewrite map_map. apply map_ext_in. intros x Hin.
  rewrite Forall_forall in Hall. specialize (Hall x Hin).
  cbn [f64_div]. change (Qeq_bool 0 0) with true. cbv iota.
  destruct (Qcompare_spec x 0); [reflexivity | exfalso; lra | exfalso; lra].
Qed.

(** The ten confidences of ten draws, one of them positive: finite, each in
    [0, 1], their exact sum within [2^-50] of 1. *)
Lemma np_divide_normalised (xs : list Q) :
  List.length xs = 10%nat -> Forall unit_float xs -> Exists (fun x => 0 < x) xs ->
  exists cs,
    np_divide (map Fin xs) (np_sum (map Fin xs)) = map Fin cs
    /\ Forall (fun c => 0 <= c /\ c <= 1) cs
    /\ Qabs (Qsum cs - 1) <= 2 ^ (-50).
Proof.
  intros Hlen Hxs Hex.
  destruct (normalised_distribution xs Hlen Hxs Hex) as (cs & Hcs & Hunit & H1 & H2).
  exists cs. split; [exact Hcs|]. split; [exact Hunit|].
  apply Qabs_case; intros _; lra.
Qed.

End RoundingTheory.

Lemma finite_values_Fin (qs : list Q) : finite_values (map Fin qs) = Some qs.
Proof. induction qs as [|q qs IH]; simpl; [reflexivity | now rewrite IH]. Qed.

(** ** The loop that builds the results *)

Lemma for_each_getitem (catalog : list string) (confidences : list f64) (idxs : list nat) :
  Forall (fun i => i < List.length catalog /\ i < List.length confidences)%nat idxs ->
  for_each idxs (fun idx =>
     d <- getitem catalog idx ;;
     c <- getitem confidences idx ;;
     Ok {| disease := d; confidence := c |})
  = Ok (map (fun idx => {| disease := nth idx catalog ""; confidence := nth idx confidences NaN |}) idxs).
Proof.
  induction 1 as [|i idxs [Hi1 Hi2] _ IH]; simpl; [reflexivity|].
  unfold getitem at 1 2.
  rewrite (nth_error_nth' catalog "" Hi1), (nth_error_nth' confidences NaN Hi2).
  simpl. rewrite IH. reflexivity.
Qed.

(** ** The mock detector, for any generator and any argsort

    What is assumed of numpy: [rand n] returns [n] floats of the form
    [k / 2^53] with [0 <= k < 2^53]; [argsort xs] returns the indices of
    [xs], each once, in an order in which the values never decrease
    ([nan] last).  Nothing is assumed about the order of equal values. *)

Section DetectorFacts.

Variable RandomState : Type.
Variable shuffle : list string -> RandomState -> list string * RandomState.
Variable rand : nat -> RandomState -> list Q * RandomState.
Variable argsort : list f64 -> list nat.
Variable Image : Type.

Hypothesis rand_length : forall n st, List.length (fst (rand n st)) = n.
Hypothesis rand_unit : forall n st, Forall unit_float (fst (rand n st)).
Hypothesis argsort_perm :
  forall xs, Permutation (argsort xs) (seq 0 (List.length xs)).
Hypothesis argsort_sorted :
  forall xs, StronglySorted (fun i j => sort_le (nth i xs NaN) (nth j xs NaN))
                            (argsort xs).

Abbreviation distribution := (confidence_distribution shuffle rand).
Abbreviation raw := (raw_scores shuffle rand).
Abbreviation top_indices catalog st := (firstn 3 (rev (argsort (distribution catalog st)))).

Lemma distribution_length catalog st :
  List.length (distribution catalog st) = List.length catalog.
Proof.
  unfold confidence_distribution, np_divide, raw_scores.
  now rewrite !length_map, rand_length.
Qed.

Lemma raw_length catalog st : List.length (raw catalog st) = List.length catalog.
Proof. unfold raw_scores. apply rand_length. Qed.

Lemma raw_unit catalog st : Forall unit_float (raw catalog st).
Proof. unfold raw_scores. apply rand_unit. Qed.

Lemma top_indices_in_range catalog st :
  Forall (fun i => i < List.length catalog)%nat (top_indices catalog st).
Proof.
  apply Forall_forall. intros i Hi.
  assert (Hin : In i (argsort (distribution catalog st))).
  { apply in_rev. rewrite <- (firstn_skipn 3 (rev _)). apply in_or_app. now left. }
  apply (Permutation_in _ (argsort_perm _)) in Hin.
  apply in_seq in Hin. rewrite distribution_length in Hin. lia.
Qed.

Lemma top_indices_length catalog st :
  List.length (top_indices catalog st) = Nat.min 3 (List.length catalog).
Proof.
  rewrite length_firstn, length_rev, (Permutation_length (argsort_perm _)).
  now rewrite length_seq, distribution_length.
Qed.

Lemma top_indices_NoDup catalog st : NoDup (top_indices catalog st).
Proof.
  assert (H : NoDup (rev (argsort (distribution catalog st)))).
  { apply (Permutation_NoDup (l := seq 0 (List.length (distribution catalog st)))).
    - etransitivity; [symmetry; apply argsort_perm | apply Permutation_rev].
    - apply seq_NoDup. }
  rewrite <- (firstn_skipn 3 (rev _)) in H. now apply NoDup_app_remove_r in H.
Qed.

(** The results are the labels and confidences at the three chosen
    indices; the loop raises no [IndexError]. *)
Lemma detect_disease_of_results catalog (image : option Image) st :
  fst (detect_disease_of shuffle rand argsort catalog image st) =
  Ok (map (fun idx => {| disease := nth idx catalog "";
                         confidence := nth idx (distribution catalog st) NaN |})
          (top_indices catalog st)).
Proof.
  pose proof (top_indices_in_range catalog st) as Hrange.
  pose proof (distribution_length catalog st) as Hlen.
  unfold detect_disease_of, confidence_distribution, raw_scores in *.
  destruct (shuffle catalog st) as [diseases st1]; cbn [fst snd] in *.
  destruct (rand (List.length catalog) st1) as [confidences st2]; cbn [fst snd] in *.
  apply for_each_getitem.
  eapply Forall_impl; [|exact Hrange]. simpl. intros i Hi. rewrite Hlen. lia.
Qed.

Lemma top_indices_descending catalog st :
  descending (map (fun idx => nth idx (distribution catalog st) NaN)
                  (top_indices catalog st)).
Proof.
  unfold descending. apply StronglySorted_map, StronglySorted_firstn.
  apply (StronglySorted_rev _ _ (argsort_sorted (distribution catalog st))).
Qed.

(** The three chosen values are largest ones: a label that is not
    returned has a confidence that does not exceed any returned one. *)
Lemma top_indices_largest catalog st (i j : nat) :
  (i < List.length catalog)%nat ->
  ~ In i (top_indices catalog st) -> In j (top_indices catalog st) ->
  sort_le (nth i (distribution catalog st) NaN) (nth j (distribution catalog st) NaN).
Proof.
  intros Hi Hout Hj.
  pose proof (StronglySorted_rev _ _ (argsort_sorted (distribution catalog st))) as Hs.
  rewrite <- (firstn_skipn 3 (rev _)) in Hs.
  apply (StronglySorted_app_cross _ _ _ Hs j i Hj).
  assert (Hin : In i (rev (argsort (distribution catalog st)))).
  { apply -> in_rev. apply (Permutation_in _ (Permutation_sym (argsort_perm _))).
    apply in_seq. rewrite distribution_length. lia. }
  rewrite <- (firstn_skipn 3 (rev _)) in Hin. apply in_app_or in Hin. tauto.
Qed.

(** The ten confidences when a draw is positive: the binary64 quotients
    are finite and in [0, 1], and their exact sum is within [2^-50] of 1. *)
Lemma distribution_values st :
  Exists (fun x => 0 < x)%Q (raw CLASS_NAMES st) ->
  exists cs,
    distribution CLASS_NAMES st = map Fin cs
    /\ Forall (fun c => 0 <= c /\ c <= 1)%Q cs
    /\ (Qabs (Qsum cs - 1) <= 2 ^ (-50))%Q.
Proof.
  intros Hex. unfold confidence_distribution.
  apply np_divide_normalised; [apply raw_length | apply raw_unit | exact Hex].
Qed.

Lemma distribution_in_unit st :
  Exists (fun x => 0 < x)%Q (raw CLASS_NAMES st) ->
  Forall in_unit (distribution CLASS_NAMES st).
Proof.
  intros Hex. destruct (distribution_values st Hex) as (cs & -> & Hunit & _).
  rewrite Forall_map. exact Hunit.
Qed.

Lemma CLASS_NAMES_NoDup : NoDup CLASS_NAMES.
Proof.
  apply (NoDup_nth CLASS_NAMES ""). intros i j Hi Hj.
  simpl in Hi, Hj.
  do 10 (destruct i as [|i]; [do 10 (destruct j as [|j]; [simpl; try discriminate; reflexivity|]); simpl in Hj; lia|]).
  simpl in Hi; lia.
Qed.

Lemma NoDup_map_nth {A : Type} (l : list A) (d : A) (idxs : list nat) :
  NoDup l -> NoDup idxs -> Forall (fun i => i < List.length l)%nat idxs ->
  NoDup (map (fun i => nth i l d) idxs).
Proof.
  intros Hl Hidx Hrange. induction Hidx as [|i idxs Hi _ IH]; simpl; constructor.
  - intros Hin. apply in_map_iff in Hin as [j [Hj Hin]].
    apply Forall_cons_iff in Hrange as [Hilt Hrange].
    rewrite Forall_forall in Hrange.
    apply (proj1 (NoDup_nth l d) Hl) in Hj; [congruence | now apply Hrange | exact Hilt].
  - apply IH. now apply Forall_cons_iff in Hrange.
Qed.

(** C1.  Whatever the image and the state of the generator,
    [detect_disease] returns exactly 3 predictions, with three different
    labels of the catalog, in an order in which the binary64 confidence
    never increases; when at least one drawn score is positive every
    confidence is a finite float in [0, 1]. *)
Theorem detect_disease_top_three (image : option Image) (st : RandomState) :
  exists p1 p2 p3,
    fst (detect_disease shuffle rand argsort image st) = Ok [p1; p2; p3]
    /\ descending (confidences_of [p1; p2; p3])
    /\ NoDup (map disease [p1; p2; p3])
    /\ Forall (fun p => In (disease p) CLASS_NAMES) [p1; p2; p3]
    /\ (Exists (fun x => 0 < x)%Q (raw CLASS_NAMES st) ->
        Forall in_unit (confidences_of [p1; p2; p3])).
Proof.
  unfold detect_disease. rewrite detect_disease_of_results.
  pose proof (top_indices_length CLASS_NAMES st) as Hlen.
  pose proof (top_indices_in_range CLASS_NAMES st) as Hrange.
  pose proof (top_indices_NoDup CLASS_NAMES st) as Hnodup.
  pose proof (top_indices_descending CLASS_NAMES st) as Hdesc.
  pose proof (distribution_length CLASS_NAMES st) as Hdl.
  destruct (top_indices CLASS_NAMES st) as [|i1 [|i2 [|i3 [|i4 l]]]]; try discriminate Hlen.
  cbn [map]. do 3 eexists. split; [reflexivity|].
  split; [exact Hdesc|].
  split; [exact (NoDup_map_nth CLASS_NAMES "" _ CLASS_NAMES_NoDup Hnodup Hrange)|].
  split.
  - rewrite Forall_forall in Hrange.
    repeat (apply Forall_cons; [cbn [disease]; apply nth_In, Hrange; simpl; tauto|]).
    apply Forall_nil.
  - intros Hex. pose proof (distribution_in_unit st Hex) as Hunit.
    rewrite Forall_forall in Hunit, Hrange.
    repeat (apply Forall_cons;
            [cbn [confidence]; apply Hunit, nth_In; rewrite Hdl; apply Hrange; simpl; tauto|]).
    apply Forall_nil.
Qed.

(** C2.  For a catalog of any size [n], the empty one included,
    [detect_disease] raises nothing and returns exactly [min 3 n]
    predictions. *)
Theorem detect_disease_of_length (catalog : list string)
    (image : option Image) (st : RandomState) :
  exists rs,
    fst (detect_disease_of shuffle rand argsort catalog image st) = Ok rs
    /\ List.length rs = Nat.min 3 (List.length catalog).
Proof.
  rewrite detect_disease_of_results. eexists. split; [reflexivity|].
  rewrite length_map. apply top_indices_length.
Qed.

(** C5.  When at least one drawn score is positive, the confidences of
    the 10 labels, as the binary64 numbers the division returns, are
    finite, none is negative or above 1, and their exact sum differs from
    1 by at most [2^-50]. *)
Theorem distribution_sum_near_one (st : RandomState) :
  Exists (fun x => 0 < x)%Q (raw CLASS_NAMES st) ->
  exists qs,
    finite_values (distribution CLASS_NAMES st) = Some qs
    /\ List.length qs = 10%nat
    /\ Forall (fun q => 0 <= q /\ q <= 1)%Q qs
    /\ (Qabs (Qsum qs - 1) <= 2 ^ (-50))%Q.
Proof.
  intros Hex. pose proof (distribution_length CLASS_NAMES st) as Hlen.
  destruct (distribution_values st Hex) as (cs & Heq & Hunit & Hsum).
  rewrite Heq in *. exists cs. split; [apply finite_values_Fin|].
  split; [now rewrite length_map in Hlen|]. split; assumption.
Qed.

(** C9.  [detect_disease] does not look at its argument: two runs from
    the same state of the generator return the same results, and leave the
    generator in the same state, whatever the two images. *)
Theorem detect_disease_ignores_image (image1 image2 : option Image)
    (st : RandomState) :
  detect_disease shuffle rand argsort image1 st
  = detect_disease shuffle rand argsort image2 st.
Proof. reflexivity. Qed.

(** Equal scores give equal confidences, which no argsort can put in a
    strictly descending order. *)
Lemma tied_scores_not_strict (image : option Image) (st : RandomState) :
  (forall x y, In x (raw CLASS_NAMES st) -> In y (raw CLASS_NAMES st) -> (x == y)%Q) ->
  forall rs, fst (detect_disease shuffle rand argsort image st) = Ok rs ->
             ~ strictly_descending (confidences_of rs).
Proof.
  intros Htied rs Hrs Hstrict. unfold detect_disease in Hrs.
  rewrite detect_disease_of_results in Hrs.
  pose proof (top_indices_length CLASS_NAMES st) as Hlen.
  pose proof (top_indices_in_range CLASS_NAMES st) as Hrange.
  assert (Hrl : List.length (raw CLASS_NAMES st) = List.length CLASS_NAMES)
    by (unfold raw_scores; apply rand_length).
  destruct (top_indices CLASS_NAMES st) as [|i1 [|i2 l]]; try discriminate Hlen.
  injection Hrs as <-.
  apply Forall_cons_iff in Hrange as [H1 Hrange].
  apply Forall_cons_iff in Hrange as [H2 _].
  unfold strictly_descending, confidences_of in Hstrict. simpl in Hstrict.
  apply StronglySorted_inv in Hstrict as [_ Hall].
  apply Forall_cons_iff in Hall as [Hlt _].
  unfold confidence_distribution, np_divide in Hlt. rewrite map_map in Hlt.
  set (s := np_sum (map Fin (raw CLASS_NAMES st))) in Hlt.
  rewrite (nth_indep _ NaN (f64_div (Fin 0) s)) in Hlt by (rewrite length_map; lia).
  rewrite (nth_indep (map _ _) NaN (f64_div (Fin 0) s)) in Hlt
    by (rewrite length_map; lia).
  rewrite !(map_nth (fun x => f64_div (Fin x) s)) in Hlt.
  rewrite f64_div_tied in Hlt; [discriminate|].
  apply Htied; apply nth_In; lia.
Qed.

End DetectorFacts.

(** ** The replayable source and the stable argsort meet the assumptions *)

Lemma tape_rand_length (n : nat) (st : Tape.t) :
  List.length (fst (Tape.rand n st)) = n.
Proof.
  revert st; induction n as [|n IH]; intros st; simpl; [reflexivity|].
  destruct (Tape.next st) as [k st1]. specialize (IH st1).
  destruct (Tape.rand n st1) as [xs st2]. simpl in *. now rewrite IH.
Qed.

Lemma unit_interval_unit (k : N) : unit_float (Tape.unit_interval k).
Proof.
  exists (Z.of_N (k mod 2 ^ 53)). split.
  - pose proof (N.mod_lt k (2 ^ 53)%N) as Hlt.
    assert (H : (k mod 2 ^ 53 < 2 ^ 53)%N) by (apply Hlt; discriminate).
    apply N2Z.inj_lt in H. pose proof (N2Z.is_nonneg (k mod 2 ^ 53)).
    change (Z.of_N (2 ^ 53)) with (2 ^ 53)%Z in H. lia.
  - unfold Tape.unit_interval.
    setoid_replace (2 ^ (-53))%Q with (1 # 2 ^ 53)%Q by (vm_compute; reflexivity).
    unfold Qeq, Qmult, inject_Z. cbn [Qnum Qden]. lia.
Qed.

Lemma tape_rand_unit (n : nat) (st : Tape.t) :
  Forall unit_float (fst (Tape.rand n st)).
Proof.
  revert st; induction n as [|n IH]; intros st; simpl; [constructor|].
  destruct (Tape.next st) as [k st1]. specialize (IH st1).
  destruct (Tape.rand n st1) as [xs st2]. simpl in *.
  constructor; [apply unit_interval_unit | exact IH].
Qed.

Lemma insert_by_perm (key : nat -> f64) (i : nat) (l : list nat) :
  Permutation (insert_by key i l) (i :: l).
Proof.
  induction l as [|j l IH]; simpl; [reflexivity|].
  destruct (sort_leb (key i) (key j)); [reflexivity|].
  rewrite IH. apply perm_swap.
Qed.

Lemma insert_by_sorted (key : nat -> f64) (i : nat) (l : list nat) :
  StronglySorted (fun a b => sort_le (key a) (key b)) l ->
  StronglySorted (fun a b => sort_le (key a) (key b)) (insert_by key i l).
Proof.
  induction 1 as [|j l Hl IH Hj]; simpl; [repeat constructor|].
  destruct (sort_leb (key i) (key j)) eqn:E.
  - constructor; [now constructor|]. constructor; [exact E|].
    eapply Forall_impl; [|exact Hj]. simpl. intros a Ha.
    now apply sort_le_trans with (key j).
  - constructor; [exact IH|].
    rewrite (Forall_forall _ (insert_by key i l)). intros a Ha.
    apply (Permutation_in _ (insert_by_perm key i l)) in Ha. destruct Ha as [<- | Ha].
    + destruct (sort_le_total (key i) (key j)) as [H | H]; [unfold sort_le in H; congruence | exact H].
    + rewrite Forall_forall in Hj. now apply Hj.
Qed.

Lemma stable_argsort_perm (xs : list f64) :
  Permutation (stable_argsort xs) (seq 0 (List.length xs)).
Proof.
  unfold stable_argsort. induction (seq 0 (List.length xs)) as [|i l IH]; simpl; [reflexivity|].
  rewrite insert_by_perm. now constructor.
Qed.

Lemma stable_argsort_sorted (xs : list f64) :
  StronglySorted (fun i j => sort_le (nth i xs NaN) (nth j xs NaN)) (stable_argsort xs).
Proof.
  unfold stable_argsort. induction (seq 0 (List.length xs)) as [|i l IH]; simpl; [constructor|].
  now apply insert_by_sorted.
Qed.

(** ** The detector on explicit tapes *)

Lemma tied_tape_not_strict (argsort : list f64 -> list nat) :
  (forall xs, Permutation (argsort xs) (seq 0 (List.length xs))) ->
  forall rs,
    fst (detect_disease Tape.shuffle Tape.rand argsort (@None unit) tied_tape) = Ok rs ->
    ~ strictly_descending (confidences_of rs).
Proof.
  intros Hperm.
  apply (tied_scores_not_strict Tape.t Tape.shuffle Tape.rand argsort unit
           tape_rand_length Hperm).
  intros x y Hx Hy.
  change (raw_scores Tape.shuffle Tape.rand CLASS_NAMES tied_tape)
    with (repeat (2 ^ 52 # 2 ^ 53) 10) in Hx, Hy.
  apply repeat_spec in Hx, Hy. subst. reflexivity.
Qed.

Lemma tied_tape_scores :
  raw_scores Tape.shuffle Tape.rand CLASS_NAMES tied_tape = repeat (2 ^ 52 # 2 ^ 53) 10.
Proof. reflexivity. Qed.

(** C1 fails as stated.  With ten equal scores the detector returns three
    equal confidences, so the order is not strictly descending (whatever
    the argsort, see [tied_tape_not_strict]); and with the insertion sort
    the reversal puts the later catalog entries first. *)
Lemma detect_disease_tied_counterexample :
  exists rs,
    fst (detect_disease_on_tape None tied_tape) = Ok rs
    /\ map disease rs = ["Healthy Tomato"; "Tomato Mosaic Virus"; "Tomato Yellow Leaf Curl Virus"]
    /\ map (catalog_index CLASS_NAMES) (map disease rs) = [9; 8; 7]%nat
    /\ ~ strictly_descending (confidences_of rs)
    /\ ~ catalog_ranked CLASS_NAMES rs.
Proof.
  eexists. split; [vm_compute; reflexivity|].
  split; [reflexivity|]. split; [reflexivity|]. split.
  - intros H. apply StronglySorted_inv in H as [_ H].
    apply Forall_inv in H. vm_compute in H. discriminate.
  - intros H. apply StronglySorted_inv in H as [_ H].
    apply Forall_inv in H. destruct H as [H | [_ H]].
    + vm_compute in H. discriminate.
    + vm_compute in H. lia.
Qed.

(** C2 fails as stated.  On an empty catalog the detector raises nothing
    and returns the empty list. *)
Lemma detect_disease_empty_catalog_counterexample :
  fst (detect_disease_of Tape.shuffle Tape.rand stable_argsort [] (@None unit) tied_tape)
  = Ok []
  /\ ~ exists e, fst (detect_disease_of Tape.shuffle Tape.rand stable_argsort []
                        (@None unit) tied_tape) = Raise e.
Proof.
  split; [reflexivity|]. intros [e H]. discriminate H.
Qed.

(** With an exhausted tape every score is zero and every confidence is
    [nan]. *)
Lemma all_zero_scores_give_nan :
  raw_scores Tape.shuffle Tape.rand CLASS_NAMES [] = repeat (0 # 2 ^ 53) 10
  /\ confidence_distribution Tape.shuffle Tape.rand CLASS_NAMES [] = repeat NaN 10
  /\ option_map (map confidence)
       (match fst (detect_disease_on_tape None []) with Ok rs => Some rs | Raise _ => None end)
     = Some [NaN; NaN; NaN].
Proof. repeat split; vm_compute; reflexivity. Qed.

Lemma ramp_tape_scores_positive :
  Exists (fun x => 0 < x)%Q (raw_scores Tape.shuffle Tape.rand CLASS_NAMES ramp_tape).
Proof.
  apply Exists_exists. exists (1 * 2 ^ 49 # 2 ^ 53). split.
  - vm_compute. tauto.
  - reflexivity.
Qed.

Lemma detect_disease_top_three_witness :
  exists p1 p2 p3,
    fst (detect_disease_on_tape None ramp_tape) = Ok [p1; p2; p3]
    /\ descending (confidences_of [p1; p2; p3])
    /\ NoDup (map disease [p1; p2; p3])
    /\ Forall in_unit (confidences_of [p1; p2; p3]).
Proof.
  destruct (detect_disease_top_three Tape.t Tape.shuffle Tape.rand stable_argsort unit
              tape_rand_length tape_rand_unit stable_argsort_perm stable_argsort_sorted
              None ramp_tape)
    as (p1 & p2 & p3 & Hrs & Hdesc & Hnodup & _ & Hunit).
  exists p1, p2, p3. repeat split; try assumption.
  apply Hunit, ramp_tape_scores_positive.
Defined.

Lemma detect_disease_of_length_witness :
  exists rs,
    fst (detect_disease_of Tape.shuffle Tape.rand stable_argsort
           ["Tomato Early Blight"; "Healthy Tomato"] (@None unit) ramp_tape) = Ok rs
    /\ List.length rs = 2%nat.
Proof.
  exact (detect_disease_of_length Tape.t Tape.shuffle Tape.rand stable_argsort unit
           tape_rand_length stable_argsort_perm
           ["Tomato Early Blight"; "Healthy Tomato"] None ramp_tape).
Defined.

Lemma distribution_sum_near_one_witness :
  exists qs,
    finite_values (confidence_distribution Tape.shuffle Tape.rand CLASS_NAMES ramp_tape) = Some qs
    /\ List.length qs = 10%nat
    /\ Forall (fun q => 0 <= q /\ q <= 1)%Q qs
    /\ (Qabs (Qsum qs - 1) <= 2 ^ (-50))%Q.
Proof.
  exact (distribution_sum_near_one Tape.t Tape.shuffle Tape.rand
           tape_rand_length tape_rand_unit ramp_tape ramp_tape_scores_positive).
Defined.

(** ** Rounding *)

Section Rounding.

Import PrimFloat.

#[local] Set Warnings "-inexact-float".

(** The draws of [sixteenths_tape] are the same scores in both models,
    and their sum, 70/16, is exact in either order of summation. *)
Lemma sixteenths_scores :
  map (fun x => option_map Qred (Binary64.exact_value x))
      (fst (Binary64.rand 10 (snd (Tape.shuffle CLASS_NAMES sixteenths_tape))))
  = map (fun a => Some (Zpos a # 16)) [5; 1; 9; 9; 15; 15; 1; 5; 1; 9]%positive
  /\ map Qred (raw_scores Tape.shuffle Tape.rand CLASS_NAMES sixteenths_tape)
     = map (fun a => Zpos a # 16) [5; 1; 9; 9; 15; 15; 1; 5; 1; 9]%positive
  /\ Binary64.sum_pairwise
       (fst (Binary64.rand 10 (snd (Tape.shuffle CLASS_NAMES sixteenths_tape))))
     = 4.375%float
  /\ Binary64.sum_sequential
       (fst (Binary64.rand 10 (snd (Tape.shuffle CLASS_NAMES sixteenths_tape))))
     = 4.375%float.
Proof.
  repeat split; vm_compute; reflexivity.
Qed.

(** The rounding written out in [round64] is the machine's: on the
    sample pairs the quotient and the sum are the same numbers, and on each
    tape the ten confidences of the detector are the ten machine floats. *)
Lemma round64_agrees_with_machine :
  forallb Binary64.div_agrees Binary64.rounding_samples = true
  /\ forallb Binary64.add_agrees Binary64.rounding_samples = true.
Proof. split; vm_compute; reflexivity. Qed.

Lemma distribution_agrees_with_machine :
  Forall (fun tape =>
            all_same (map Binary64.value (Binary64.confidence_distribution CLASS_NAMES tape))
                     (confidence_distribution Tape.shuffle Tape.rand CLASS_NAMES tape)
            = true)
         [ramp_tape; tied_tape; sixteenths_tape; rounding_tie_tape; []].
Proof. repeat (apply Forall_cons; [vm_compute; reflexivity|]). apply Forall_nil. Qed.

(** Rounding makes ties.  On [rounding_tie_tape] the score of "Tomato Late
    Blight" (index 2) is above that of "Tomato Leaf Mold" (index 3), the
    two confidences are the same float, and the detector returns the label
    of index 3 and leaves out that of index 2. *)
Lemma rounding_tie_detection :
  let raw := raw_scores Tape.shuffle Tape.rand CLASS_NAMES rounding_tie_tape in
  let dist := confidence_distribution Tape.shuffle Tape.rand CLASS_NAMES rounding_tie_tape in
  (nth 3 raw 0 < nth 2 raw 0)%Q
  /\ f64_same (nth 2 dist NaN) (nth 3 dist NaN) = true
  /\ option_map (map disease)
       (match fst (detect_disease_on_tape None rounding_tie_tape) with
        | Ok rs => Some rs
        | Raise _ => None
        end)
     = Some ["Tomato Bacterial Spot"; "Tomato Early Blight"; "Tomato Leaf Mold"].
Proof.
  cbv zeta. split; [vm_compute; reflexivity|]. split; vm_compute; reflexivity.
Qed.

(** C5 fails as stated.  For the scores 5/16, 1/16, 9/16, 9/16, 15/16,
    15/16, 1/16, 5/16, 1/16, 9/16 the ten binary64 quotients are positive
    but do not sum to 1: neither added left to right, nor added the way
    numpy adds them, nor added exactly; and the ten confidences of the
    detector, the same ten numbers, do not sum to 1 either. *)
Lemma binary64_sum_counterexample :
  let d := Binary64.confidence_distribution CLASS_NAMES sixteenths_tape in
  List.length d = 10%nat
  /\ forallb (fun x => PrimFloat.ltb 0 x) d = true
  /\ PrimFloat.eqb (Binary64.sum_sequential d) 1 = false
  /\ PrimFloat.eqb (Binary64.sum_pairwise d) 1 = false
  /\ (exists q, Binary64.exact_sum d = Some q /\ ~ (q == 1)%Q)
  /\ exists qs,
       finite_values (confidence_distribution Tape.shuffle Tape.rand CLASS_NAMES
                        sixteenths_tape) = Some qs
       /\ ~ (Qsum qs == 1)%Q
       /\ f64_same (np_sum (map Fin qs)) (Fin 1) = false.
Proof.
  cbv zeta. split; [vm_compute; reflexivity|]. split; [vm_compute; reflexivity|].
  split; [vm_compute; reflexivity|]. split; [vm_compute; reflexivity|]. split.
  - eexists. split; [vm_compute; reflexivity|].
    intros H. vm_compute in H. discriminate H.
  - eexists. split; [vm_compute; reflexivity|]. split.
    + intros H. vm_compute in H. discriminate H.
    + vm_compute. reflexivity.
Qed.

(** The literal confidences of the three samples, as binary64 values,
    do sum to 1.0 when added left to right. *)
Lemma binary64_sample_sums :
  Binary64.sum_sequential [0.92; 0.06; 0.02]%float = 1%float
  /\ Binary64.sum_sequential [0.88; 0.08; 0.04]%float = 1%float
  /\ Binary64.sum_sequential [0.95; 0.03; 0.02]%float = 1%float.
Proof. repeat split; vm_compute; reflexivity. Qed.

End Rounding.

(** * Further properties of the code *)

(** ** Shortened labels *)

(** X1.  A shortened label has at most 23 characters, the ellipsis
    included, and at most 20 when the name itself has at most 20. *)
Theorem short_name_at_most_23 (name : string) :
  (String.length (short_name name) <= 23)%nat
  /\ ((String.length name <= 20)%nat -> (String.length (short_name name) <= 20)%nat).
Proof.
  destruct (short_name_shape name) as [body [_ [Hlen Heq]]]. rewrite Heq.
  destruct (20 <? String.length name)%nat eqn:E.
  - rewrite string_length_app. simpl String.length. split; [lia|].
    apply Nat.ltb_lt in E. lia.
  - split; [lia | intros _; exact Hlen].
Qed.

Lemma short_name_at_most_23_witness :
  (String.length (short_name "Tomato Yellow Leaf Curl Virus") <= 23)%nat
  /\ (String.length (short_name "Tomato Leaf Mold") <= 20)%nat.
Proof.
  split.
  - exact (proj1 (short_name_at_most_23 "Tomato Yellow Leaf Curl Virus")).
  - apply (proj2 (short_name_at_most_23 "Tomato Leaf Mold")). simpl. lia.
Defined.

Lemma string_app_empty (s : string) : (s ++ "")%string = s.
Proof. induction s; simpl; congruence. Qed.

(** X2.  For a name made of the crop name and a rest that does not
    contain it: a rest of at most 13 characters is shown as it is; a rest
    of 14 to 20 characters is shown whole and followed by the ellipsis; a
    longer rest is cut to 20 characters and followed by the ellipsis. *)
Theorem short_name_of_crop_label (rest : string) :
  Py.str_in "Tomato " rest = false ->
  ((String.length rest <= 13)%nat -> short_name ("Tomato " ++ rest) = rest)
  /\ ((13 < String.length rest <= 20)%nat ->
      short_name ("Tomato " ++ rest) = (rest ++ "...")%string)
  /\ ((20 < String.length rest)%nat ->
      short_name ("Tomato " ++ rest) = (Py.take 20 rest ++ "...")%string
      /\ String.length (short_name ("Tomato " ++ rest)) = 23%nat).
Proof.
  intros H. rewrite (short_name_of_tomato rest H). repeat split.
  - intros Hlen. rewrite take_all by lia.
    replace (13 <? String.length rest)%nat with false
      by (symmetry; apply Nat.ltb_ge; lia).
    apply string_app_empty.
  - intros [Hlo Hhi]. rewrite take_all by lia.
    replace (13 <? String.length rest)%nat with true
      by (symmetry; apply Nat.ltb_lt; lia).
    reflexivity.
  - replace (13 <? String.length rest)%nat with true
      by (symmetry; apply Nat.ltb_lt; lia).
    reflexivity.
  - replace (13 <? String.length rest)%nat with true
      by (symmetry; apply Nat.ltb_lt; lia).
    rewrite string_length_app. change (String.length "...") with 3%nat.
    assert (Hn : forall n s, (n <= String.length s)%nat -> String.length (Py.take n s) = n).
    { induction n; intros [|c s] Hs; simpl in *; try reflexivity; try lia.
      rewrite IHn; [reflexivity | lia]. }
    rewrite Hn; lia.
Qed.

Lemma short_name_of_crop_label_witness :
  short_name ("Tomato " ++ "Leaf Mold") = "Leaf Mold"
  /\ short_name ("Tomato " ++ "Septoria Leaf Spot") = "Septoria Leaf Spot..."
  /\ short_name ("Tomato " ++ "Yellow Leaf Curl Virus") = "Yellow Leaf Curl Vir...".
Proof.
  split; [|split].
  - apply (proj1 (short_name_of_crop_label "Leaf Mold" eq_refl)). simpl. lia.
  - apply (proj1 (proj2 (short_name_of_crop_label "Septoria Leaf Spot" eq_refl))).
    simpl. lia.
  - apply (proj2 (proj2 (short_name_of_crop_label "Yellow Leaf Curl Virus" eq_refl))).
    simpl. lia.
Defined.

(** X3.  A name in which the crop name does not occur is cut to its first
    20 characters and followed by the ellipsis when it has more, and is
    shown as it is otherwise. *)
Theorem short_name_without_crop_name (name : string) :
  Py.str_in "Tomato " name = false ->
  short_name name =
  (if (20 <? String.length name)%nat then Py.take 20 name ++ "..." else name)%string.
Proof.
  intros H. unfold short_name, Py.replace. rewrite (replace_from_absent _ _ _ H).
  destruct (20 <? String.length name)%nat eqn:E; [reflexivity|].
  apply Nat.ltb_ge in E. rewrite take_all by exact E. apply string_app_empty.
Qed.

Lemma short_name_without_crop_name_witness :
  short_name "Healthy Tomato" = "Healthy Tomato".
Proof. exact (short_name_without_crop_name "Healthy Tomato" eq_refl). Defined.

(** ** Treatments *)

(** X4.  Whatever the name, the advice has exactly four items, none of
    them empty. *)
Theorem get_treatments_four_items (name : string) :
  List.length (get_treatments name) = 4%nat
  /\ Forall (fun item => item <> "") (get_treatments name).
Proof.
  unfold get_treatments.
  destruct (Py.str_in "Healthy" name), (Py.str_in "Early Blight" name),
    (Py.str_in "Late Blight" name), (Py.str_in "Septoria" name);
    (split; [reflexivity | repeat (apply Forall_cons; [discriminate|]); apply Forall_nil]).
Qed.

Lemma str_in_extended (p s pre post : string) :
  Py.str_in p s = true -> Py.str_in p (pre ++ s ++ post)%string = true.
Proof.
  rewrite !str_in_spec. intros [a [b ->]].
  exists (pre ++ a)%string, (b ++ post)%string.
  assert (Hassoc : forall x y z : string, ((x ++ y) ++ z = x ++ (y ++ z))%string).
  { induction x; intros; simpl; congruence. }
  now rewrite !Hassoc.
Qed.

(** X5.  A name that contains "Healthy" gets the healthy advice, and so
    does every name that contains it in turn, whatever disease it
    mentions besides. *)
Theorem healthy_advice_survives_extension (name pre post : string) :
  Py.str_in "Healthy" name = true ->
  get_treatments name = healthy_advice
  /\ get_treatments (pre ++ name ++ post)%string = healthy_advice.
Proof.
  intros H. unfold get_treatments.
  now rewrite H, (str_in_extended _ _ pre post H).
Qed.

Lemma healthy_advice_survives_extension_witness :
  get_treatments "Healthy Tomato" = healthy_advice
  /\ get_treatments ("Was " ++ "Healthy Tomato" ++ ", now Late Blight")%string = healthy_advice.
Proof.
  exact (healthy_advice_survives_extension "Healthy Tomato" "Was " ", now Late Blight" eq_refl).
Defined.

(** ** More on the mock detector *)

Lemma nth_error_nth_eq {A : Type} (l : list A) (i : nat) (a d : A) :
  nth_error l i = Some a -> nth i l d = a /\ (i < List.length l)%nat.
Proof.
  intros H. split; [now apply nth_error_nth | apply nth_error_Some; congruence].
Qed.

Lemma nth_all_nan {A : Type} (l : list A) (i : nat) :
  nth i (map (fun _ => NaN) l) NaN = NaN.
Proof.
  revert i; induction l as [|a l IH]; intros [|i]; simpl; try reflexivity. apply IH.
Qed.

Section DetectorMore.

Variable RandomState : Type.
Variable shuffle : list string -> RandomState -> list string * RandomState.
Variable rand : nat -> RandomState -> list Q * RandomState.
Variable argsort : list f64 -> list nat.
Variable Image : Type.

Hypothesis rand_length : forall n st, List.length (fst (rand n st)) = n.
Hypothesis rand_unit : forall n st, Forall unit_float (fst (rand n st)).
Hypothesis argsort_perm :
  forall xs, Permutation (argsort xs) (seq 0 (List.length xs)).
Hypothesis argsort_sorted :
  forall xs, StronglySorted (fun i j => sort_le (nth i xs NaN) (nth j xs NaN))
                            (argsort xs).

(** X6.  Each returned prediction pairs a catalog label with the
    binary64 confidence computed at that label's own position, and the
    three are largest among the computed confidences: the confidence of a
    label that is not returned exceeds none of the returned ones in the
    sort order.  (It may equal one of them, also when its score is the
    larger one: see [rounding_tie_detection].) *)
Theorem detect_disease_returns_largest (image : option Image) (st : RandomState) :
  exists rs,
    fst (detect_disease shuffle rand argsort image st) = Ok rs
    /\ Forall (fun p => exists i,
                 nth_error CLASS_NAMES i = Some (disease p)
                 /\ nth_error (confidence_distribution shuffle rand CLASS_NAMES st) i
                    = Some (confidence p)) rs
    /\ forall i label c,
         nth_error CLASS_NAMES i = Some label ->
         nth_error (confidence_distribution shuffle rand CLASS_NAMES st) i = Some c ->
         ~ In label (map disease rs) ->
         Forall (fun p => sort_le c (confidence p)) rs.
Proof.
  unfold detect_disease.
  rewrite (detect_disease_of_results _ shuffle rand argsort Image rand_length argsort_perm).
  pose proof (top_indices_in_range _ shuffle rand argsort rand_length argsort_perm
                CLASS_NAMES st) as Hrange.
  pose proof (top_indices_largest _ shuffle rand argsort rand_length argsort_perm
                argsort_sorted CLASS_NAMES st) as Hlargest.
  pose proof (distribution_length _ shuffle rand rand_length CLASS_NAMES st) as Hdl.
  set (dist := confidence_distribution shuffle rand CLASS_NAMES st) in *.
  set (idxs := firstn 3 (rev (argsort dist))) in *.
  eexists. split; [reflexivity|]. split.
  - rewrite Forall_map. eapply Forall_impl; [|exact Hrange].
    cbn beta. intros i Hi. exists i. cbn [disease confidence]. split.
    + now apply nth_error_nth'.
    + apply nth_error_nth'. now rewrite Hdl.
  - intros i label c Hlabel Hc Hout.
    apply (nth_error_nth_eq _ _ _ "") in Hlabel as [Hlabel Hi].
    apply (nth_error_nth_eq _ _ _ NaN) in Hc as [Hc _].
    assert (Hnot : ~ In i idxs).
    { intros Hin. apply Hout. rewrite map_map. cbn [disease].
      apply in_map_iff. exists i. split; [exact Hlabel | exact Hin]. }
    rewrite Forall_map. apply Forall_forall. intros j Hj. cbn [confidence].
    rewrite <- Hc. now apply Hlargest.
Qed.

(** X7.  When every drawn score is zero the division is 0/0 throughout:
    the detector still returns three predictions, and the confidence of
    each is [nan]. *)
Theorem detect_disease_all_zero (image : option Image) (st : RandomState) :
  Forall (fun x => x == 0)%Q (raw_scores shuffle rand CLASS_NAMES st) ->
  exists p1 p2 p3,
    fst (detect_disease shuffle rand argsort image st) = Ok [p1; p2; p3]
    /\ confidences_of [p1; p2; p3] = [NaN; NaN; NaN]
    /\ ~ Exists in_unit (confidences_of [p1; p2; p3]).
Proof.
  intros Hzero. unfold detect_disease.
  rewrite (detect_disease_of_results _ shuffle rand argsort Image rand_length argsort_perm).
  pose proof (top_indices_length _ shuffle rand argsort rand_length argsort_perm
                CLASS_NAMES st) as Hlen.
  assert (Hdist : confidence_distribution shuffle rand CLASS_NAMES st
                  = map (fun _ => NaN) (raw_scores shuffle rand CLASS_NAMES st)).
  { apply np_divide_all_zero; [|exact Hzero]. unfold raw_scores. apply rand_length. }
  rewrite Hdist in *.
  destruct (firstn 3 _) as [|i1 [|i2 [|i3 [|i4 l]]]]; try discriminate Hlen.
  cbn [map]. do 3 eexists. split; [reflexivity|].
  unfold confidences_of. cbn [map confidence]. rewrite !nth_all_nan.
  split; [reflexivity|].
  intros Hex. repeat (apply Exists_cons in Hex as [Hex | Hex]; [exact Hex|]).
  inversion Hex.
Qed.

(** X8.  The chart drawn from the detector's output has three bars with
    three different names, and the right-hand column is drawn; when a
    drawn score is positive every bar, a rounded quotient, lies within the
    x axis. *)
Theorem chart_of_detection (image : option Image) (st : RandomState) :
  exists rs,
    fst (detect_disease shuffle rand argsort image st) = Ok rs
    /\ List.length (bars_top_to_bottom (top_predictions_chart rs)) = 3%nat
    /\ NoDup (bar_names (top_predictions_chart rs))
    /\ (forall ss, results_column (set_results (Some rs) ss) <> None)
    /\ (Exists (fun x => 0 < x)%Q (raw_scores shuffle rand CLASS_NAMES st) ->
        Forall in_unit (bar_widths (top_predictions_chart rs))).
Proof.
  unfold detect_disease.
  rewrite (detect_disease_of_results _ shuffle rand argsort Image rand_length argsort_perm).
  pose proof (top_indices_length _ shuffle rand argsort rand_length argsort_perm
                CLASS_NAMES st) as Hlen.
  pose proof (top_indices_in_range _ shuffle rand argsort rand_length argsort_perm
                CLASS_NAMES st) as Hrange.
  pose proof (top_indices_NoDup _ shuffle rand argsort argsort_perm CLASS_NAMES st)
    as Hnodup.
  pose proof (distribution_length _ shuffle rand rand_length CLASS_NAMES st) as Hdl.
  pose proof (distribution_in_unit _ shuffle rand rand_length rand_unit st) as Hunit.
  set (dist := confidence_distribution shuffle rand CLASS_NAMES st) in *.
  set (idxs := firstn 3 (rev (argsort dist))) in *.
  eexists. split; [reflexivity|]. split; [|split; [|split]].
  - rewrite bars_of_chart, !length_map. exact Hlen.
  - unfold top_predictions_chart, short_names. cbn [bar_names].
    rewrite !map_map. cbn [disease].
    assert (Heq : map (fun i => short_name (nth i CLASS_NAMES "")) idxs
                  = map (fun i => nth i (short_names CLASS_NAMES) "") idxs).
    { apply map_ext. intros i. unfold short_names.
      change "" with (short_name "") at 2. now rewrite map_nth. }
    rewrite Heq. apply NoDup_map_nth; [apply short_names_of_catalog_NoDup | exact Hnodup|].
    unfold short_names. now rewrite length_map.
  - intros ss. destruct idxs as [|i1 l]; [discriminate Hlen|]. discriminate.
  - intros Hex. specialize (Hunit Hex). unfold top_predictions_chart. cbn [bar_widths].
    rewrite map_map. cbn [confidence]. rewrite Forall_map.
    rewrite Forall_forall in Hunit, Hrange. apply Forall_forall. intros i Hi.
    apply Hunit, nth_In. rewrite Hdl. now apply Hrange.
Qed.

End DetectorMore.

Lemma detect_disease_returns_largest_witness :
  exists rs,
    fst (detect_disease_on_tape None rounding_tie_tape) = Ok rs
    /\ map disease rs = ["Tomato Bacterial Spot"; "Tomato Early Blight"; "Tomato Leaf Mold"]
    /\ forall c,
         nth_error (confidence_distribution Tape.shuffle Tape.rand CLASS_NAMES
                      rounding_tie_tape) 2
           = Some c ->
         Forall (fun p => sort_le c (confidence p)) rs.
Proof.
  destruct (detect_disease_returns_largest Tape.t Tape.shuffle Tape.rand stable_argsort unit
              tape_rand_length stable_argsort_perm stable_argsort_sorted None
              rounding_tie_tape)
    as (rs & Hrs & _ & Hlargest).
  exists rs. split; [exact Hrs|].
  assert (Hlabels : map disease rs
                    = ["Tomato Bacterial Spot"; "Tomato Early Blight"; "Tomato Leaf Mold"]).
  { assert (H : option_map (map disease)
                  (match fst (detect_disease_on_tape None rounding_tie_tape) with
                   | Ok r => Some r | Raise _ => None end)
                = Some ["Tomato Bacterial Spot"; "Tomato Early Blight"; "Tomato Leaf Mold"])
      by (vm_compute; reflexivity).
    unfold detect_disease_on_tape in H. rewrite Hrs in H. simpl in H. congruence. }
  split; [exact Hlabels|].
  intros c Hc. apply (Hlargest 2%nat "Tomato Late Blight" c eq_refl Hc).
  rewrite Hlabels. simpl. intuition discriminate.
Defined.

Lemma detect_disease_all_zero_witness :
  exists p1 p2 p3,
    fst (detect_disease_on_tape None []) = Ok [p1; p2; p3]
    /\ confidences_of [p1; p2; p3] = [NaN; NaN; NaN].
Proof.
  destruct (detect_disease_all_zero Tape.t Tape.shuffle Tape.rand stable_argsort unit
              tape_rand_length stable_argsort_perm None [])
    as (p1 & p2 & p3 & Hrs & Hnan & _).
  - repeat constructor.
  - now exists p1, p2, p3.
Defined.

Lemma chart_of_detection_witness :
  exists rs,
    fst (detect_disease_on_tape None ramp_tape) = Ok rs
    /\ NoDup (bar_names (top_predictions_chart rs))
    /\ Forall in_unit (bar_widths (top_predictions_chart rs)).
Proof.
  destruct (chart_of_detection Tape.t Tape.shuffle Tape.rand stable_argsort unit
              tape_rand_length tape_rand_unit stable_argsort_perm None ramp_tape)
    as (rs & Hrs & _ & Hnodup & _ & Hunit).
  exists rs. repeat split; try assumption.
  apply Hunit, ramp_tape_scores_positive.
Defined.

(** ** Runs of the script *)

Section ScriptFacts.

Variable RandomState : Type.
Variable shuffle : list string -> RandomState -> list string * RandomState.
Variable rand : nat -> RandomState -> list Q * RandomState.
Variable argsort : list f64 -> list nat.
Variable Image : Type.
Variable File : Type.
Variable image_open : File -> option Image.

Hypothesis rand_length : forall n st, List.length (fst (rand n st)) = n.
Hypothesis argsort_perm :
  forall xs, Permutation (argsort xs) (seq 0 (List.length xs)).

Abbreviation run := (main_body shuffle rand argsort image_open).
Abbreviation detect image st := (detect_disease shuffle rand argsort (Image := Image) image st).

Lemma detect_three (image : option Image) (st : RandomState) :
  exists p1 p2 p3, detect image st = (Ok [p1; p2; p3], snd (detect image st)).
Proof.
  pose proof (detect_disease_of_results _ shuffle rand argsort Image rand_length
                argsort_perm CLASS_NAMES image st) as Hrs.
  pose proof (top_indices_length _ shuffle rand argsort rand_length argsort_perm
                CLASS_NAMES st) as Hlen.
  fold (detect_disease shuffle rand argsort image st) in Hrs.
  destruct (firstn 3 _) as [|i1 [|i2 [|i3 [|i4 l]]]]; try discriminate Hlen.
  cbn [map] in Hrs. do 3 eexists.
  destruct (detect image st) as [r st']. simpl in *. now rewrite Hrs.
Qed.

Lemma analyze_ok (image : option Image) (ss : SessionState) (st : RandomState) :
  exists p1 p2 p3,
    analyze shuffle rand argsort image ss st
    = {| final_session := {| camera_active := false; processing := false;
                             results := Some [p1; p2; p3] |};
         final_random := snd (detect image st);
         ended := RerunRequested |}.
Proof.
  destruct (detect_three image st) as (p1 & p2 & p3 & H).
  exists p1, p2, p3. unfold analyze. rewrite H. reflexivity.
Qed.

(** X9.  With "Use Camera" selected no run draws results: a run that
    reaches its end has cleared the stored results and shows the
    placeholder, whatever was stored before and whether or not "New Scan"
    was clicked; a run ends otherwise only on a click on "Capture Leaf"
    with the video running. *)
Theorem camera_mode_never_draws_results (w : Widgets File) (ss : SessionState)
    (st : RandomState) :
  cam_option w = UseCamera ->
  match ended (run w ss st) with
  | Finished v =>
      column v = None
      /\ results (final_session (run w ss st)) = None
      /\ camera_active (final_session (run w ss st)) = true
  | RerunRequested | Raised _ =>
      video_receiver w = true /\ capture_clicked w = true
  end.
Proof.
  intros Hcam. unfold main_body, column1. rewrite Hcam.
  destruct (video_receiver w); [destruct (capture_clicked w)|].
  - destruct (analyze_ok None (set_processing true (set_results None (set_camera_active true ss))) st)
      as (p1 & p2 & p3 & ->).
    simpl. split; reflexivity.
  - simpl. repeat split.
  - simpl. repeat split.
Qed.

(** X10.  The result of a capture is never displayed.  The run of the
    click stores three predictions and asks for a rerun; the run that
    follows, with the camera still selected, clears them and shows the
    placeholder under "Camera active - ready to scan". *)
Theorem captured_results_are_discarded (w : Widgets File) (ss : SessionState)
    (st : RandomState) :
  cam_option w = UseCamera -> video_receiver w = true -> capture_clicked w = true ->
  let first := run w ss st in
  let second := run (rerun_widgets w) (final_session first) (final_random first) in
  ended first = RerunRequested
  /\ (exists p1 p2 p3, results (final_session first) = Some [p1; p2; p3])
  /\ ended second
     = Finished {| status_dot_color := "#4CAF50";
                   status_text := "Camera active - ready to scan";
                   column := None |}
  /\ results (final_session second) = None.
Proof.
  intros Hcam Hvideo Hclick. cbv zeta.
  assert (Hfirst : exists p1 p2 p3,
            run w ss st
            = {| final_session := {| camera_active := false; processing := false;
                                     results := Some [p1; p2; p3] |};
                 final_random := snd (detect None st);
                 ended := RerunRequested |}).
  { unfold main_body, column1. rewrite Hcam, Hvideo, Hclick. apply analyze_ok. }
  destruct Hfirst as (p1 & p2 & p3 & ->).
  cbn [final_session final_random ended].
  split; [reflexivity|]. split; [now exists p1, p2, p3|].
  unfold main_body, column1, rerun_widgets. cbn [cam_option video_receiver capture_clicked].
  rewrite Hcam. destruct (video_receiver w); split; reflexivity.
Qed.

(** X11.  The stored results are always nothing or three predictions:
    every run keeps this, however it ends. *)
Theorem stored_results_are_triples (w : Widgets File) (ss : SessionState)
    (st : RandomState) :
  (results ss = None \/ exists p1 p2 p3, results ss = Some [p1; p2; p3]) ->
  results (final_session (run w ss st)) = None
  \/ exists p1 p2 p3, results (final_session (run w ss st)) = Some [p1; p2; p3].
Proof.
  intros Hinv.
  assert (Hcol2 : forall ss' status,
            (results ss' = None \/ exists p1 p2 p3, results ss' = Some [p1; p2; p3]) ->
            results (final_session (column2 RandomState File w ss' st status)) = None
            \/ exists p1 p2 p3,
                 results (final_session (column2 RandomState File w ss' st status))
                 = Some [p1; p2; p3]).
  { intros ss' status H. unfold column2.
    destruct (results_column ss'); [destruct (new_scan_clicked w)|]; simpl; auto. }
  unfold main_body, column1.
  destruct (cam_option w).
  - destruct (video_receiver w); [destruct (capture_clicked w)|].
    + destruct (analyze_ok None (set_processing true (set_results None (set_camera_active true ss))) st)
        as (p1 & p2 & p3 & ->).
      right. now exists p1, p2, p3.
    + apply Hcol2. now left.
    + apply Hcol2. now left.
  - destruct (uploaded_file w) as [f|]; [|now apply Hcol2].
    destruct (image_open f) as [image|]; [|exact Hinv].
    destruct (analyze_clicked w); [|now apply Hcol2].
    destruct (analyze_ok (Some image) (set_processing true ss) st) as (p1 & p2 & p3 & ->).
    right. now exists p1, p2, p3.
  - apply Hcol2.
    destruct (healthy_leaf_clicked w); [right; simpl; now do 3 eexists|].
    destruct (late_blight_clicked w); [right; simpl; now do 3 eexists|].
    destruct (early_blight_clicked w); [right; simpl; now do 3 eexists|].
    exact Hinv.
Qed.

(** X12.  The script raises only when an uploaded file cannot be opened:
    a run ends in an exception exactly when "Upload Image" is selected and
    [Image.open] fails on the file; the exception is that one, and the
    session is left with [processing] set. *)
Theorem main_raises_only_on_unreadable_upload (w : Widgets File) (ss : SessionState)
    (st : RandomState) :
  ((exists err, ended (run w ss st) = Raised err)
   <-> (cam_option w = UploadImage
        /\ exists f, uploaded_file w = Some f /\ image_open f = None))
  /\ (forall err, ended (run w ss st) = Raised err ->
        err = CannotOpenImage
        /\ processing (final_session (run w ss st)) = true
        /\ results (final_session (run w ss st)) = results ss
        /\ final_random (run w ss st) = st).
Proof.
  unfold main_body, column1, column2.
  destruct (cam_option w) eqn:Hcam;
    [ destruct (video_receiver w); [destruct (capture_clicked w)|]
    | destruct (uploaded_file w) as [f|] eqn:Hfile;
      [destruct (image_open f) as [image|] eqn:Hopen; [destruct (analyze_clicked w)|]|]
    | ];
    try match goal with
        | |- context [analyze _ _ _ ?i ?s ?t] =>
            destruct (analyze_ok i s t) as (p1 & p2 & p3 & ->)
        end;
    try match goal with
        | |- context [results_column ?x] =>
            destruct (results_column x); [destruct (new_scan_clicked w)|]
        end;
    cbn [ended final_session final_random processing results set_processing];
    (split;
     [ split;
       [ intros [err H]; first [discriminate H | split; [reflexivity | now exists f]]
       | intros [Hc [f' [Hf Ho]]];
         first [discriminate Hc | discriminate Hf
               | injection Hf as <-; congruence | now eexists]
       ]
     | intros err H; first [discriminate H | injection H as <-; repeat split] ]).
Qed.

(** X13.  A run that reaches its end never clears [processing]: the flag
    is then set exactly when it was set before or a file is uploaded under
    "Upload Image"; the status reads "Analyzing leaf..." exactly when the
    flag is set; and the generator has not been used. *)
Theorem finished_run_keeps_processing (w : Widgets File) (ss : SessionState)
    (st : RandomState) (v : View) :
  ended (run w ss st) = Finished v ->
  processing (final_session (run w ss st))
  = (processing ss
     || match cam_option w, uploaded_file w with
        | UploadImage, Some _ => true
        | _, _ => false
        end)
  /\ (status_text v = "Analyzing leaf..."
      <-> processing (final_session (run w ss st)) = true)
  /\ final_random (run w ss st) = st.
Proof.
  unfold main_body, column1, column2, analyze.
  destruct (cam_option w);
    [ destruct (video_receiver w); [destruct (capture_clicked w)|]
    | destruct (uploaded_file w) as [f|];
      [destruct (image_open f) as [image|]; [destruct (analyze_clicked w)|]|]
    | ];
    try match goal with
        | |- context [detect_disease _ _ _ ?i ?t] =>
            destruct (detect_disease shuffle rand argsort i t) as [[rs|e] st']
        end;
    try match goal with
        | |- context [results_column ?x] =>
            destruct (results_column x); [destruct (new_scan_clicked w)|]
        end;
    cbn [ended final_session final_random processing results camera_active
         set_processing set_results set_camera_active click_sample];
    intros H; try discriminate H; injection H as <-;
    cbn [status_text];
    try (destruct (healthy_leaf_clicked w), (late_blight_clicked w),
           (early_blight_clicked w));
    cbn [processing click_sample];
    unfold status_indicator; cbn [processing camera_active set_processing set_results
                                  set_camera_active click_sample];
    (split; [|split; [|reflexivity]]);
    try (destruct (processing ss); reflexivity);
    try (destruct (processing ss), (camera_active ss); cbn [snd];
         split; intros; congruence);
    try (destruct (processing ss); cbn [snd]; split; intros; congruence);
    try (cbn [snd]; split; intros; congruence).
Qed.

(** X14.  With "Use Sample" selected (or "Upload Image" without a file),
    results on display and no sample button clicked, a click on "New
    Scan" clears the three keys and asks for a rerun without using the
    generator; the run that follows shows the placeholder under "Ready to
    scan". *)
Theorem new_scan_resets_session (w : Widgets File) (ss : SessionState)
    (st : RandomState) (r0 : Prediction) (rest : list Prediction) :
  cam_option w = UseSample \/ (cam_option w = UploadImage /\ uploaded_file w = None) ->
  last_sample_click w = None ->
  results ss = Some (r0 :: rest) ->
  new_scan_clicked w = true ->
  run w ss st
  = {| final_session := blank_session; final_random := st; ended := RerunRequested |}
  /\ run (rerun_widgets w) blank_session st
     = {| final_session := blank_session; final_random := st;
          ended := Finished {| status_dot_color := "#ff9800";
                               status_text := "Ready to scan";
                               column := None |} |}.
Proof.
  intros Hmode Hnone Hres Hclick. unfold last_sample_click in Hnone.
  unfold main_body, column1, column2, rerun_widgets, results_column.
  cbn [cam_option uploaded_file early_blight_clicked late_blight_clicked
       healthy_leaf_clicked new_scan_clicked].
  destruct Hmode as [-> | [-> ->]].
  - destruct (healthy_leaf_clicked w); [discriminate|].
    destruct (late_blight_clicked w); [discriminate|].
    destruct (early_blight_clicked w); [discriminate|].
    rewrite Hres, Hclick. split; reflexivity.
  - rewrite Hres, Hclick. split; reflexivity.
Qed.

(** X15.  With "Use Sample" selected and "New Scan" not clicked, a click
    on a sample button replaces whatever result was stored by that
    sample's and draws it in the same run; the two flags and the
    generator are left as they were. *)
Theorem sample_click_replaces_results (w : Widgets File) (ss : SessionState)
    (st : RandomState) (b : SampleButton) :
  cam_option w = UseSample ->
  new_scan_clicked w = false ->
  last_sample_click w = Some b ->
  run w ss st
  = {| final_session := click_sample b ss;
       final_random := st;
       ended := Finished {| status_dot_color := fst (status_indicator ss);
                            status_text := snd (status_indicator ss);
                            column := results_column (click_sample b ss) |} |}
  /\ results (click_sample b ss) = Some (sample_results b)
  /\ option_map (fun col => List.length (bars_top_to_bottom (chart col)))
       (results_column (click_sample b ss)) = Some 3%nat.
Proof.
  intros Hmode Hnew Hlast. unfold last_sample_click in Hlast.
  unfold main_body, column1, column2. rewrite Hmode, Hnew.
  split; [|split; [reflexivity | destruct b; vm_compute; reflexivity]].
  destruct (healthy_leaf_clicked w), (late_blight_clicked w), (early_blight_clicked w);
    try discriminate Hlast; injection Hlast as <-; reflexivity.
Qed.

(** X16.  With "Upload Image" selected, a readable file and a click on
    "Analyze Image", the run stores the detector's three predictions and
    asks for a rerun; the run that follows draws them, with the treatments
    of the first label, under the status "Analyzing leaf...", the flag
    [processing] being set again. *)
Theorem uploaded_analysis_is_displayed (w : Widgets File) (ss : SessionState)
    (st : RandomState) (f : File) (image : Image) :
  cam_option w = UploadImage -> uploaded_file w = Some f ->
  image_open f = Some image -> analyze_clicked w = true ->
  let first := run w ss st in
  let second := run (rerun_widgets w) (final_session first) (final_random first) in
  exists p1 p2 p3,
    fst (detect (Some image) st) = Ok [p1; p2; p3]
    /\ first = {| final_session := {| camera_active := false; processing := false;
                                      results := Some [p1; p2; p3] |};
                  final_random := snd (detect (Some image) st);
                  ended := RerunRequested |}
    /\ second
       = {| final_session := {| camera_active := false; processing := true;
                                results := Some [p1; p2; p3] |};
            final_random := snd (detect (Some image) st);
            ended := Finished
                       {| status_dot_color := "#FFC107";
                          status_text := "Analyzing leaf...";
                          column := Some {| primary_disease := disease p1;
                                            primary_confidence := confidence p1;
                                            treatments := get_treatments (disease p1);
                                            chart := top_predictions_chart [p1; p2; p3] |} |} |}.
Proof.
  intros Hmode Hfile Hopen Hclick. cbv zeta.
  destruct (detect_three (Some image) st) as (p1 & p2 & p3 & Hdetect).
  exists p1, p2, p3. split; [now rewrite Hdetect|].
  assert (Hfirst : run w ss st
                   = {| final_session := {| camera_active := false; processing := false;
                                            results := Some [p1; p2; p3] |};
                        final_random := snd (detect (Some image) st);
                        ended := RerunRequested |}).
  { unfold main_body, column1, analyze. rewrite Hmode, Hfile, Hopen, Hclick, Hdetect.
    reflexivity. }
  rewrite Hfirst. split; [reflexivity|].
  cbn [final_session final_random].
  unfold main_body, column1, rerun_widgets.
  cbn [cam_option uploaded_file analyze_clicked new_scan_clicked].
  rewrite Hmode, Hfile, Hopen. reflexivity.
Qed.

End ScriptFacts.

(** The same on tapes. *)

Lemma camera_mode_never_draws_results_witness :
  match ended (main_on_tape (idle UseCamera) (click_sample TestHealthyLeaf blank_session) []) with
  | Finished v =>
      column v = None
      /\ results (final_session (main_on_tape (idle UseCamera)
                                   (click_sample TestHealthyLeaf blank_session) [])) = None
      /\ camera_active (final_session (main_on_tape (idle UseCamera)
                                         (click_sample TestHealthyLeaf blank_session) [])) = true
  | RerunRequested | Raised _ =>
      video_receiver (idle UseCamera) = true /\ capture_clicked (idle UseCamera) = true
  end.
Proof.
  exact (camera_mode_never_draws_results Tape.t Tape.shuffle Tape.rand stable_argsort
           unit bool open_unless_broken tape_rand_length stable_argsort_perm
           (idle UseCamera) (click_sample TestHealthyLeaf blank_session) [] eq_refl).
Defined.

Lemma captured_results_are_discarded_witness :
  let first := main_on_tape capture blank_session tied_tape in
  let second := main_on_tape (rerun_widgets capture) (final_session first) (final_random first) in
  ended first = RerunRequested
  /\ (exists p1 p2 p3, results (final_session first) = Some [p1; p2; p3])
  /\ ended second
     = Finished {| status_dot_color := "#4CAF50";
                   status_text := "Camera active - ready to scan";
                   column := None |}
  /\ results (final_session second) = None.
Proof.
  exact (captured_results_are_discarded Tape.t Tape.shuffle Tape.rand stable_argsort
           unit bool open_unless_broken tape_rand_length stable_argsort_perm
           capture blank_session tied_tape eq_refl eq_refl eq_refl).
Defined.

Lemma stored_results_are_triples_witness :
  results (final_session (main_on_tape capture blank_session tied_tape)) = None
  \/ exists p1 p2 p3,
       results (final_session (main_on_tape capture blank_session tied_tape))
       = Some [p1; p2; p3].
Proof.
  exact (stored_results_are_triples Tape.t Tape.shuffle Tape.rand stable_argsort
           unit bool open_unless_broken tape_rand_length stable_argsort_perm
           capture blank_session tied_tape (or_introl eq_refl)).
Defined.

Lemma main_raises_only_on_unreadable_upload_witness :
  ended (main_on_tape (upload false false) blank_session []) = Raised CannotOpenImage
  /\ processing (final_session (main_on_tape (upload false false) blank_session [])) = true.
Proof.
  destruct (main_raises_only_on_unreadable_upload Tape.t Tape.shuffle Tape.rand
              stable_argsort unit bool open_unless_broken tape_rand_length
              stable_argsort_perm (upload false false) blank_session [])
    as [[_ Hraises] Hstate].
  destruct Hraises as [err Herr].
  - split; [reflexivity | now exists false].
  - destruct (Hstate err Herr) as (-> & Hprocessing & _). split; assumption.
Defined.

Lemma finished_run_keeps_processing_witness :
  processing (final_session (main_on_tape (upload true false) blank_session [])) = true
  /\ final_random (main_on_tape (upload true false) blank_session []) = [].
Proof.
  destruct (finished_run_keeps_processing Tape.t Tape.shuffle Tape.rand stable_argsort
              unit bool open_unless_broken (upload true false) blank_session []
              {| status_dot_color := "#FFC107"; status_text := "Analyzing leaf...";
                 column := None |} eq_refl)
    as (_ & Hstatus & Hrandom).
  split; [apply Hstatus; reflexivity | exact Hrandom].
Defined.

Lemma new_scan_resets_session_witness :
  main_on_tape new_scan (click_sample TestEarlyBlight blank_session) []
  = {| final_session := blank_session; final_random := []; ended := RerunRequested |}
  /\ main_on_tape (rerun_widgets new_scan) blank_session []
     = {| final_session := blank_session; final_random := [];
          ended := Finished {| status_dot_color := "#ff9800";
                               status_text := "Ready to scan";
                               column := None |} |}.
Proof.
  exact (new_scan_resets_session Tape.t Tape.shuffle Tape.rand stable_argsort
           unit bool open_unless_broken new_scan (click_sample TestEarlyBlight blank_session)
           [] _ _ (or_introl eq_refl) eq_refl eq_refl eq_refl).
Defined.

Lemma sample_click_replaces_results_witness :
  results (final_session (main_on_tape (click TestLateBlight false)
                            (click_sample TestHealthyLeaf blank_session) []))
  = Some (sample_results TestLateBlight).
Proof.
  destruct (sample_click_replaces_results Tape.t Tape.shuffle Tape.rand stable_argsort
              unit bool open_unless_broken (click TestLateBlight false)
              (click_sample TestHealthyLeaf blank_session) [] TestLateBlight
              eq_refl eq_refl eq_refl)
    as (Hrun & Hresults & _).
  unfold main_on_tape. rewrite Hrun. exact Hresults.
Defined.

Lemma uploaded_analysis_is_displayed_witness :
  exists p1 p2 p3,
    fst (detect_disease_on_tape (Some tt) ramp_tape) = Ok [p1; p2; p3]
    /\ option_map (fun v => option_map primary_disease (column v))
         (match ended (main_on_tape (rerun_widgets (upload true true))
                         (final_session (main_on_tape (upload true true) blank_session ramp_tape))
                         (final_random (main_on_tape (upload true true) blank_session ramp_tape)))
          with Finished v => Some v | _ => None end)
       = Some (Some (disease p1)).
Proof.
  destruct (uploaded_analysis_is_displayed Tape.t Tape.shuffle Tape.rand stable_argsort
              unit bool open_unless_broken tape_rand_length stable_argsort_perm
              (upload true true) blank_session ramp_tape true tt
              eq_refl eq_refl eq_refl eq_refl)
    as (p1 & p2 & p3 & Hdetect & Hfirst & Hsecond).
  exists p1, p2, p3. split; [exact Hdetect|].
  unfold main_on_tape. rewrite Hfirst. cbn [final_session final_random].
  rewrite Hfirst in Hsecond. cbn [final_session final_random] in Hsecond.
  rewrite Hsecond. reflexivity.
Defined.

(** ** The first run and the shuffle *)

(** X17.  In the first run of a new session nothing but a click on a
    sample button can bring results on display: if the run reaches its
    end and no sample button takes effect, it shows the placeholder and
    stores no results. *)
Theorem first_run_shows_placeholder (RandomState Image File : Type)
    (shuffle : list string -> RandomState -> list string * RandomState)
    (rand : nat -> RandomState -> list Q * RandomState)
    (argsort : list f64 -> list nat) (image_open : File -> option Image)
    (w : Widgets File) (st : RandomState) (v : View) :
  cam_option w <> UseSample \/ last_sample_click w = None ->
  ended (main shuffle rand argsort image_open w new_session st) = Finished v ->
  column v = None
  /\ results (final_session (main shuffle rand argsort image_open w new_session st)) = None.
Proof.
  intros Hmode. unfold main, main_body, column1, column2, analyze, last_sample_click in *.
  destruct (cam_option w);
    [ destruct (video_receiver w); [destruct (capture_clicked w)|]
    | destruct (uploaded_file w) as [f|];
      [destruct (image_open f) as [image|]; [destruct (analyze_clicked w)|]|]
    | destruct Hmode as [Hmode | Hmode]; [congruence|];
      destruct (healthy_leaf_clicked w); [discriminate|];
      destruct (late_blight_clicked w); [discriminate|];
      destruct (early_blight_clicked w); [discriminate|] ];
    try match goal with
        | |- context [detect_disease _ _ _ ?i ?t] =>
            destruct (detect_disease shuffle rand argsort i t) as [[rs|e] st']
        end;
    cbn; intros H; try discriminate H; injection H as <-; split; reflexivity.
Qed.

Lemma first_run_shows_placeholder_witness :
  column {| status_dot_color := "#FFC107"; status_text := "Analyzing leaf...";
            column := None |} = None
  /\ results (final_session (main Tape.shuffle Tape.rand stable_argsort open_unless_broken
                               (upload true false) new_session [])) = None.
Proof.
  exact (first_run_shows_placeholder Tape.t unit bool Tape.shuffle Tape.rand stable_argsort
           open_unless_broken (upload true false) []
           {| status_dot_color := "#FFC107"; status_text := "Analyzing leaf...";
              column := None |}
           (or_intror eq_refl) eq_refl).
Defined.

(** X18.  The shuffled copy of the labels is never read: two shuffles
    that leave the generator in the same state give the same results,
    whatever lists they return. *)
Theorem shuffled_copy_is_not_used (RandomState Image : Type)
    (shuffle1 shuffle2 : list string -> RandomState -> list string * RandomState)
    (rand : nat -> RandomState -> list Q * RandomState)
    (argsort : list f64 -> list nat) :
  (forall l st, snd (shuffle1 l st) = snd (shuffle2 l st)) ->
  forall (catalog : list string) (image : option Image) (st : RandomState),
    detect_disease_of shuffle1 rand argsort catalog image st
    = detect_disease_of shuffle2 rand argsort catalog image st.
Proof.
  intros Hsame catalog image st. unfold detect_disease_of.
  specialize (Hsame catalog st).
  destruct (shuffle1 catalog st) as [l1 st1], (shuffle2 catalog st) as [l2 st2].
  simpl in Hsame. subst st2. reflexivity.
Qed.

Lemma shuffled_copy_is_not_used_witness :
  detect_disease_of Tape.shuffle Tape.rand stable_argsort CLASS_NAMES (@None unit) ramp_tape
  = detect_disease_of skip_shuffle Tape.rand stable_argsort CLASS_NAMES (@None unit) ramp_tape.
Proof.
  exact (shuffled_copy_is_not_used Tape.t unit Tape.shuffle skip_shuffle Tape.rand
           stable_argsort (fun l st => eq_refl) CLASS_NAMES None ramp_tape).
Defined.
